(** * SemCor corpus reader: a shallow embedding of
      [nltk/corpus/reader/semcor.py] and the properties of its views.

    The reader turns a parsed markup document into a sequence of items
    (strings, tuples, lists of sub-words, trees, sentence containers).
    Python values are embedded as the inductive [pyval], exceptions as
    the error monad [py], attribute dictionaries as [gmap string string],
    text as [string], in UTF-8. *)

From Stdlib Require Import ZArith Ascii String DecimalString DecimalN.
From stdpp Require Import gmap strings list fin_maps.

Open Scope string_scope.
Open Scope list_scope.

(** ** Exceptions and the error monad *)

Inductive pyerr :=
| UnboundLocalError (var : string)
| ValueError (msg : string)
| KeyError (key : string)
| TypeError
| IndexError
| AssertionError.

Inductive py (A : Type) :=
| Ret (a : A)
| Raise (e : pyerr).
Arguments Ret {A} a.
Arguments Raise {A} e.

#[global] Instance py_ret : MRet py := @Ret.
#[global] Instance py_bind : MBind py := λ A B f m,
  match m with Ret a => f a | Raise e => Raise e end.
#[global] Instance py_throw : MThrow pyerr py := @Raise.

Definition returns {A} (m : py A) : bool :=
  match m with Ret _ => true | Raise _ => false end.

(** [for x in l: acc = body(acc, x)], stopping at the first exception. *)
Fixpoint for_each {A S} (body : S → A → py S) (acc : S) (l : list A) : py S :=
  match l with
  | [] => Ret acc
  | x :: l' => acc' ← body acc x; for_each body acc' l'
  end.

(** ** Markup elements (xml.etree.ElementTree.Element) *)

#[local] Unset Elimination Schemes.

Inductive elt := Element {
  tag : string;
  attrib : gmap string string;
  text : option string;
  children : list elt
}.

(** ** Python values produced by the reader *)

Inductive pyval :=
| VNone
| VBool (b : bool)
| VStr (s : string)
| VTuple (xs : list pyval)
| VList (xs : list pyval)
| VTree (node : pyval) (kids : list pyval)
| VSentence (num : string) (items : list pyval).

#[local] Set Elimination Schemes.

Definition of_opt_str (o : option string) : pyval :=
  match o with Some s => VStr s | None => VNone end.

Definition is_VNone (v : pyval) : bool :=
  match v with VNone => true | _ => false end.

(** ** Built-in string operations

    A [string] holds text in UTF-8, as the corpus files do.  Python
    works on the characters of the text, and the Unicode database of
    the interpreter says which characters are whitespace and which are
    decimal digits; the tables here are those of Unicode 5.2, the
    database of Python 2.7, the language of the source; later versions
    of the database take [U+180E] out of the whitespace and add the
    digits of scripts encoded since.  The text is well-formed UTF-8,
    as the parser delivers it.  (ElementTree
    hands text without any character beyond ASCII over as a byte
    string, whose whitespace is the six blanks of ASCII; the two
    whitespace tables agree on every ASCII character a document can
    hold, the separators [U+001C] to [U+001F] not being among them.) *)

Module Str.

(** The characters of a text: each byte that is not a continuation
    byte, with the continuation bytes that follow it. *)
Definition is_continuation (a : ascii) : bool :=
  (128 <=? N_of_ascii a)%N && (N_of_ascii a <? 192)%N.

Fixpoint segments (s : string) : string * list string :=
  match s with
  | "" => ("", [])
  | String a s' =>
      let '(conts, cs) := segments s' in
      if is_continuation a then (String a conts, cs)
      else ("", String a conts :: cs)
  end.

Definition code_points (s : string) : list string :=
  match segments s with
  | ("", cs) => cs
  | (conts, cs) => conts :: cs
  end.

(** [''.join(cs)] *)
Definition implode (cs : list string) : string := foldr String.append "" cs.

(** [ord(c)]: the payload bits of the bytes of the character. *)
Definition code_point (c : string) : N :=
  match c with
  | "" => 0
  | String a conts =>
      let n := N_of_ascii a in
      let lead := if n <? 128 then n
                  else if n <? 224 then n - 192
                  else if n <? 240 then n - 224
                  else n - 240 in
      (fix go (acc : N) (bs : string) : N :=
         match bs with
         | "" => acc
         | String b bs' => go (64 * acc + (N_of_ascii b - 128)) bs'
         end) lead conts
  end%N.

(** [c.isspace()] *)
Definition whitespace : list N :=
  [0x9; 0xA; 0xB; 0xC; 0xD; 0x1C; 0x1D; 0x1E; 0x1F; 0x20; 0x85; 0xA0;
   0x1680; 0x180E; 0x2000; 0x2001; 0x2002; 0x2003; 0x2004; 0x2005; 0x2006;
   0x2007; 0x2008; 0x2009; 0x200A; 0x2028; 0x2029; 0x202F; 0x205F; 0x3000]%N.

Definition is_space (c : string) : bool :=
  existsb (N.eqb (code_point c)) whitespace.

(** [str.lstrip()], [str.rstrip()], [str.strip()] *)
Fixpoint drop_spaces (cs : list string) : list string :=
  match cs with
  | [] => []
  | c :: cs' => if is_space c then drop_spaces cs' else cs
  end.

Definition strip_chars (cs : list string) : list string :=
  reverse (drop_spaces (reverse (drop_spaces cs))).

Definition lstrip (s : string) : string :=
  implode (drop_spaces (code_points s)).

Definition rstrip (s : string) : string :=
  implode (reverse (drop_spaces (reverse (code_points s)))).

Definition code_points_stripped (s : string) : list string :=
  strip_chars (code_points s).

Definition strip (s : string) : string :=
  implode (code_points_stripped s).

(** [s.split(sep)] for a one-character separator. *)
Fixpoint split (sep : ascii) (s : string) : list string :=
  match s with
  | "" => [""]
  | String a s' =>
      if decide (a = sep) then "" :: split sep s'
      else match split sep s' with
           | w :: ws => String a w :: ws
           | [] => [String a ""]
           end
  end.

(** [sep.join(ws)] *)
Fixpoint join (sep : string) (ws : list string) : string :=
  match ws with
  | [] => ""
  | [w] => w
  | w :: ws' => w +:+ sep +:+ join sep ws'
  end.

(** The decimal digits: the character [DIGIT ZERO] of every script,
    followed by its nine other digits. *)
Definition decimal_zeros : list N :=
  [0x30; 0x660; 0x6F0; 0x7C0; 0x966; 0x9E6; 0xA66; 0xAE6; 0xB66; 0xBE6;
   0xC66; 0xCE6; 0xD66; 0xE50; 0xED0; 0xF20; 0x1040; 0x1090; 0x17E0;
   0x1810; 0x1946; 0x19D0; 0x1A80; 0x1A90; 0x1B50; 0x1BB0; 0x1C40; 0x1C50;
   0xA620; 0xA8D0; 0xA900; 0xA9D0; 0xAA50; 0xABF0; 0xFF10; 0x104A0;
   0x1D7CE; 0x1D7D8; 0x1D7E2; 0x1D7EC; 0x1D7F6]%N.

Definition digit_value (c : string) : option N :=
  let cp := code_point c in
  (λ zero, cp - zero)%N
    <$> find (λ zero, (zero <=? cp) && (cp <? zero + 10))%N decimal_zeros.

(** Decimal digits, most significant first. *)
Fixpoint digits_go (acc : N) (cs : list string) : option N :=
  match cs with
  | [] => Some acc
  | c :: cs' => d ← digit_value c; digits_go (10 * acc + d)%N cs'
  end.

Definition digits (cs : list string) : option N :=
  match cs with [] => None | _ => digits_go 0%N cs end.

(** [int(s)] on a decimal literal: surrounding whitespace, an optional
    sign, at least one decimal digit.  [None] stands for [ValueError]. *)
Definition int (s : string) : option Z :=
  match strip_chars (code_points s) with
  | [] => None
  | c :: cs =>
      if decide (c = "+") then Z.of_N <$> digits cs
      else if decide (c = "-") then (λ n, - Z.of_N n)%Z <$> digits cs
      else Z.of_N <$> digits (c :: cs)
  end.

Definition decimal (n : N) : string := NilZero.string_of_uint (N.to_uint n).

(** ['%02d' % n]: zero-padded to a minimum width of two characters. *)
Definition fmt_02d (n : Z) : string :=
  if (n <? 0)%Z then "-" +:+ decimal (Z.abs_N n)
  else let d := decimal (Z.abs_N n) in
       if (String.length d <? 2)%nat then "0" +:+ d else d.

End Str.

(** Iterating a value, as [list.extend] and the flattening adapter do:
    a string iterates over its one-character strings, [Tree] and
    [SemcorSentence] are list subclasses. *)
Definition chars (s : string) : list pyval := VStr <$> Str.code_points s.

Definition iterate (v : pyval) : py (list pyval) :=
  match v with
  | VStr s => Ret (chars s)
  | VTuple xs | VList xs | VTree _ xs | VSentence _ xs => Ret xs
  | VNone | VBool _ => Raise TypeError
  end.

(** ** The item builder: [SemcorCorpusReader._word] *)

Inductive granularity := Token | Word | Chunk.

#[global] Instance granularity_eq_dec : EqDecision granularity.
Proof. solve_decision. Defined.

(** Reading a local variable that may not have been assigned. *)
Definition read_local {A} (name : string) (v : option A) : py A :=
  match v with Some a => Ret a | None => Raise (UnboundLocalError name) end.

(** [l[i]] *)
Definition index {A} (l : list A) (i : nat) : py A :=
  match l !! i with Some a => Ret a | None => Raise IndexError end.

(** [xmlword.text], [if not tkn: tkn = ""], [if strip_space: tkn = tkn.strip()] *)
Definition surface (xmlword : elt) (strip_space : bool) : string :=
  let tkn := match text xmlword with
             | Some s => if decide (s = "") then "" else s
             | None => ""
             end in
  if strip_space then Str.strip tkn else tkn.

(** The [try ... except ValueError] block computing [sense]. *)
Definition sense_key (lemma sensenum : string) : string :=
  match Str.int sensenum with
  | Some n => lemma +:+ "." +:+ Str.fmt_02d n
  | None => lemma +:+ "." +:+ sensenum
  end.

Definition _word (xmlword : elt) (unit : granularity)
    (pos_tag sem_tag strip_space : bool) : py pyval :=
  let tkn := surface xmlword strip_space in
  let lemma := default tkn (attrib xmlword !! "lemma") in
  let sensenum := attrib xmlword !! "wnsn" in
  let isOOVEntity := bool_decide (is_Some (attrib xmlword !! "rdf")) in
  let pos := attrib xmlword !! "pos" in
  match unit with
  | Token =>
      if negb pos_tag && negb sem_tag then Ret (VStr tkn)
      else Ret (VTuple ([VStr tkn]
                  ++ (if pos_tag then [of_opt_str pos] else [])
                  ++ (if sem_tag
                      then [VStr lemma; of_opt_str sensenum; VBool isOOVEntity]
                      else [])))
  | Word => Ret (VList (VStr <$> Str.split "_" tkn))
  | Chunk =>
      let ww := VStr <$> Str.split "_" tkn in
      let sense := sense_key lemma <$> sensenum in
      let bottom := if pos_tag then [VTree (of_opt_str pos) ww] else ww in
      if sem_tag && isOOVEntity then
        s ← read_local "sense" sense;
        Ret (VTree (VStr s) [VTree (VStr "NE") bottom])
      else if sem_tag && bool_decide (is_Some sensenum) then
        s ← read_local "sense" sense;
        Ret (VTree (VStr s) bottom)
      else if pos_tag then index bottom 0
      else Ret (VList bottom)
  end.

(** A leaf element with text and no children. *)
Definition leaf (tg : string) (attrs : list (string * string)) (txt : string) : elt :=
  Element tg (list_to_map attrs) (Some txt) [].

(** ** The leaf collector: [_all_xmlwords_in] *)

Definition is_leaf (e : elt) : bool :=
  bool_decide (tag e = "wf") || bool_decide (tag e = "punc").

(** The [result] list is created on the outermost call and mutated in
    place by the nested calls; here it is threaded through the loop. *)
Fixpoint _all_xmlwords_in (e : elt) (result : option (list elt)) : list elt :=
  match e with
  | Element _ _ _ cs =>
      (fix loop (cs : list elt) (result : list elt) : list elt :=
         match cs with
         | [] => result
         | child :: cs' =>
             loop cs' (if is_leaf child then result ++ [child]
                       else _all_xmlwords_in child (Some result))
         end) cs (default [] result)
  end.

(** The collector as the specification words it: the leaf children, and
    for every other child its own leaves, in document order. *)
Fixpoint leaf_descendants_spec (e : elt) : list elt :=
  match e with
  | Element _ _ _ cs =>
      (fix go (cs : list elt) : list elt :=
         match cs with
         | [] => []
         | child :: cs' =>
             (if is_leaf child then [child] else leaf_descendants_spec child)
             ++ go cs'
         end) cs
  end.

(** ** ElementTree traversal *)

(** [Element.iter()]: the element and all its descendants in document
    order, each paired with the tags on the way from the root. *)
Fixpoint walk (context : list string) (e : elt) : list (list string * elt) :=
  match e with
  | Element t _ _ cs =>
      (context ++ [t], e) ::
      (fix go (cs : list elt) : list (list string * elt) :=
         match cs with
         | [] => []
         | child :: cs' => walk (context ++ [t]) child ++ go cs'
         end) cs
  end.

Definition iter (e : elt) : list elt := (walk [] e).*2.

(** [xmldoc.findall('.//s')]: the proper descendants tagged [s]. *)
Definition findall_s (xmldoc : elt) : list elt :=
  filter (λ e, tag e = "s") (mjoin (iter <$> children xmldoc)).

(** ** The eager materializer: [SemcorCorpusReader._words] *)

(** [sent.extend(itm)] and [d[key]] *)
Definition extend (sent : list pyval) (itm : pyval) : py (list pyval) :=
  xs ← iterate itm; Ret (sent ++ xs).

Definition getitem (d : gmap string string) (key : string) : py string :=
  match d !! key with Some v => Ret v | None => Raise (KeyError key) end.

(** [xmldoc] is the root of the parsed file.  The first assertion,
    [unit in ('token', 'word', 'chunk')], holds of every [granularity];
    the last one is [assert None not in result]. *)
Definition _words (xmldoc : elt) (unit : granularity)
    (bracket_sent pos_tag sem_tag strip_space : bool) : py (list pyval) :=
  result ← for_each (λ result xmlsent,
      sent ← for_each (λ sent xmlword,
          itm ← _word xmlword unit pos_tag sem_tag strip_space;
          if decide (unit = Word) then extend sent itm
          else Ret (sent ++ [itm]))
        [] (_all_xmlwords_in xmlsent None);
      if bracket_sent then
        snum ← getitem (attrib xmlsent) "snum";
        Ret (result ++ [VSentence snum sent])
      else Ret (result ++ sent))
    [] (findall_s xmldoc);
  if existsb is_VNone result then Raise AssertionError else Ret result.

(** ** The lazy streaming view: [SemcorWordView] *)

Record SemcorWordView := {
  _fileid : elt;
  _tagspec : string;
  _unit : granularity;
  _sent : bool;
  _pos_tag : bool;
  _sem_tag : bool;
  _strip_space : bool
}.

Definition SemcorWordView__init__ (fileid : elt) (unit : granularity)
    (bracket_sent pos_tag sem_tag strip_space : bool) : SemcorWordView :=
  {| _fileid := fileid;
     _tagspec := if bracket_sent then ".*/s" else ".*/s/(punc|wf)";
     _unit := unit; _sent := bracket_sent; _pos_tag := pos_tag;
     _sem_tag := sem_tag; _strip_space := strip_space |}.

Definition handle_word (self : SemcorWordView) (e : elt) : py pyval :=
  _word e (_unit self) (_pos_tag self) (_sem_tag self) (_strip_space self).

Definition handle_sent (self : SemcorWordView) (e : elt) : py pyval :=
  sent ← for_each (λ sent child,
      if is_leaf child then
        itm ← handle_word self child;
        if decide (_unit self = Word) then extend sent itm
        else Ret (sent ++ [itm])
      else Raise (ValueError ("Unexpected element " +:+ tag child)))
    [] (children e);
  snum ← getitem (attrib e) "snum";
  Ret (VSentence snum sent).

Definition handle_elt (self : SemcorWordView) (e : elt)
    (context : list string) : py pyval :=
  if _sent self then handle_sent self e else handle_word self e.

(** Modelled from the spec: the two path patterns of the structural
    stream behind the view ([XMLCorpusView], not part of the sources at
    hand): any sentence element for [.*/s], any leaf that is a direct
    child of a sentence for [.*/s/(punc|wf)].  A path is the list of
    tags from the root down to the element; tags contain no [/], and
    the leading [.*/] asks for at least one tag above the sentence. *)
Definition path_matches (tagspec : string) (path : list string) : bool :=
  match reverse path with
  | t :: p :: rest =>
      if decide (tagspec = ".*/s") then bool_decide (t = "s")
      else if decide (tagspec = ".*/s/(punc|wf)") then
        (bool_decide (t = "punc") || bool_decide (t = "wf"))
        && bool_decide (p = "s") && negb (bool_decide (rest = []))
      else false
  | _ => false
  end.

(** Modelled from the spec: the structural stream yields, in document
    order and one per pull, the elements whose path matches the
    pattern, each with its path as context. *)
Definition stream (tagspec : string) (xmldoc : elt) : list (list string * elt) :=
  filter (λ pe, path_matches tagspec pe.1 = true) (walk [] xmldoc).

(** Modelled from the spec: pulling the view to exhaustion hands every
    streamed element to [handle_elt], stopping at the first exception. *)
Definition view_items (self : SemcorWordView) : py (list pyval) :=
  mapM (λ pe, handle_elt self pe.2 pe.1) (stream (_tagspec self) (_fileid self)).

(** ** The view selector: [SemcorCorpusReader._items] *)

(** Modelled from the spec: the lazy flattening adapter
    ([LazyConcatenation], not part of the sources at hand) concatenates
    each produced sub-sequence into one flat sequence. *)
Definition LazyConcatenation (list_of_lists : list pyval) : py (list pyval) :=
  subs ← mapM iterate list_of_lists; Ret (mjoin subs).

(** Modelled from the spec: [concat] joins the per-document sequences
    into one sequence, preserving document order. *)
Definition concat (docs : list (list pyval)) : list pyval := mjoin docs.

(** The reader: its mode flag and the parsed documents its file
    identifiers resolve to. *)
Record SemcorCorpusReader := {
  _lazy : bool;
  abspaths : list elt
}.

Definition _items (self : SemcorCorpusReader) (unit : granularity)
    (bracket_sent pos_tag sem_tag strip_space : bool) : py (list pyval) :=
  let producer fileid :=
    if _lazy self
    then view_items (SemcorWordView__init__ fileid unit bracket_sent
                       pos_tag sem_tag strip_space)
    else _words fileid unit bracket_sent pos_tag sem_tag strip_space in
  let view fileid :=
    if bool_decide (unit = Word) && negb bracket_sent
    then r ← producer fileid; LazyConcatenation r
    else producer fileid in
  docs ← mapM view (abspaths self); Ret (concat docs).

Definition words (self : SemcorCorpusReader) (strip_space : bool) :=
  _items self Word false false false strip_space.

Definition chunks (self : SemcorCorpusReader) (strip_space : bool) :=
  _items self Chunk false false false strip_space.

Definition sents (self : SemcorCorpusReader) (strip_space : bool) :=
  _items self Word true false false strip_space.

Definition chunk_sents (self : SemcorCorpusReader) (strip_space : bool) :=
  _items self Chunk true false false strip_space.

Definition tagged_chunks (self : SemcorCorpusReader) (tag : string)
    (strip_space : bool) :=
  _items self Chunk false (negb (bool_decide (tag = "sem")))
    (negb (bool_decide (tag = "pos"))) strip_space.

Definition tagged_sents (self : SemcorCorpusReader) (tag : string)
    (strip_space : bool) :=
  _items self Chunk true (negb (bool_decide (tag = "sem")))
    (negb (bool_decide (tag = "pos"))) strip_space.

(** ** Example documents *)

Definition node (tg : string) (attrs : list (string * string)) (cs : list elt) : elt :=
  Element tg (list_to_map attrs) None cs.

Definition doc_new_york : elt :=
  node "contextfile" [] [node "context" [] [node "p" [("pnum", "1")]
    [node "s" [("snum", "1")] [leaf "wf" [("pos", "NNP")] "New_York"]]]].

Definition doc_nested : elt :=
  node "contextfile" [] [node "context" [] [node "p" [("pnum", "1")]
    [node "s" [("snum", "1")]
       [node "chunk" [] [leaf "wf" [("pos", "NNP")] "New_York"];
        leaf "punc" [] "."]]]].

(** ** Auxiliary definitions for the proofs *)

(** The only way the builder fails: a chunk with semantic tags whose
    leaf carries [rdf] but no [wnsn], where [sense] was never bound. *)
Definition sense_unbound (xmlword : elt) (unit : granularity) (sem_tag : bool) : bool :=
  bool_decide (unit = Chunk) && sem_tag
  && bool_decide (is_Some (attrib xmlword !! "rdf"))
  && negb (bool_decide (is_Some (attrib xmlword !! "wnsn"))).

(** What one leaf adds to the running list of its sentence. *)
Definition contribution (unit : granularity) (pos_tag sem_tag strip_space : bool)
    (xmlword : elt) : py (list pyval) :=
  itm ← _word xmlword unit pos_tag sem_tag strip_space;
  if decide (unit = Word) then iterate itm else Ret [itm].

(** The items of one sentence element, from the leaves collected in it. *)
Definition sentence_items (unit : granularity) (pos_tag sem_tag strip_space : bool)
    (xmlsent : elt) : py (list pyval) :=
  yss ← mapM (contribution unit pos_tag sem_tag strip_space)
             (_all_xmlwords_in xmlsent None);
  Ret (mjoin yss).

(** The container of one sentence element, carrying its [snum]. *)
Definition sentence_container (unit : granularity)
    (pos_tag sem_tag strip_space : bool) (xmlsent : elt) : py pyval :=
  sent ← sentence_items unit pos_tag sem_tag strip_space xmlsent;
  snum ← getitem (attrib xmlsent) "snum";
  Ret (VSentence snum sent).

(** No sentence element occurs in the element or below it. *)
Definition sentence_free (e : elt) : bool :=
  forallb (λ x, negb (bool_decide (tag x = "s"))) (iter e).

(** A sentence element is flat when its children are leaves with no
    sentence element inside; a document is flat when its sentences are. *)
Definition flat_sentence (xmlsent : elt) : bool :=
  forallb (λ c, is_leaf c && sentence_free c) (children xmlsent).

Definition flat_document (xmldoc : elt) : bool :=
  forallb flat_sentence (findall_s xmldoc).

(** Characters beyond ASCII, in UTF-8: [U+00A0], [U+3000], [U+00E9],
    the Arabic-Indic digits seven and three, the fullwidth digit one,
    the mathematical bold digit five [U+1D7D3]. *)
Definition no_break_space : string := String "194" (String "160" "").
Definition ideographic_space : string :=
  String "227" (String "128" (String "128" "")).
Definition e_acute : string := String "195" (String "169" "").
Definition bold_five : string :=
  String "240" (String "157" (String "159" (String "147" ""))).
Definition tab_newline : string := String "009" (String "010" "").


(** The characters of a decimal numeral of the standard library. *)
Fixpoint uint_chars (d : Decimal.uint) : list string :=
  match d with
  | Decimal.Nil => []
  | Decimal.D0 d' => "0" :: uint_chars d'
  | Decimal.D1 d' => "1" :: uint_chars d'
  | Decimal.D2 d' => "2" :: uint_chars d'
  | Decimal.D3 d' => "3" :: uint_chars d'
  | Decimal.D4 d' => "4" :: uint_chars d'
  | Decimal.D5 d' => "5" :: uint_chars d'
  | Decimal.D6 d' => "6" :: uint_chars d'
  | Decimal.D7 d' => "7" :: uint_chars d'
  | Decimal.D8 d' => "8" :: uint_chars d'
  | Decimal.D9 d' => "9" :: uint_chars d'
  end.



Definition leaf_entity : elt :=
  leaf "wf" [("cmd", "done"); ("rdf", "location"); ("pos", "NNP");
             ("lemma", "New_York")] "New_York".

Definition sent_nested : elt :=
  node "s" [("snum", "1")]
    [leaf "wf" [] "The";
     node "chunk" [] [node "chunk" [] [leaf "wf" [] "New_York"]; leaf "wf" [] "Times"];
     leaf "punc" [] "."].

Definition sent_flat : elt :=
  node "s" [("snum", "2")] [leaf "wf" [] "It"; leaf "wf" [] "rains"; leaf "punc" [] "."].

Definition doc_semcor : elt :=
  node "contextfile" [("concordance", "brown")] [node "context" [("filename", "br-a01")]
    [node "p" [("pnum", "1")]
       [node "s" [("snum", "1")]
          [leaf "wf" [("cmd", "ignore"); ("pos", "DT")] "The";
           leaf "wf" [("cmd", "done"); ("rdf", "location"); ("pos", "NNP");
                      ("lemma", "location"); ("wnsn", "1")] "New_York";
           leaf "wf" [("cmd", "done"); ("pos", "NN"); ("lemma", "dog");
                      ("wnsn", "7")] "dogs ";
           leaf "punc" [] "."];
        node "s" [("snum", "2")]
          [leaf "wf" [("cmd", "done"); ("pos", "VB"); ("lemma", "run");
                      ("wnsn", "2;1")] "ran"]]]].

Definition doc_sentence_in_leaf : elt :=
  node "contextfile" [] [node "context" [] [node "p" [("pnum", "1")]
    [node "s" [("snum", "1")]
       [Element "wf" ∅ (Some "a")
          [node "s" [("snum", "2")] [leaf "wf" [] "b"]];
        leaf "wf" [] "c"]]]].

Definition sent_entity_then_chunk : elt :=
  node "s" [("snum", "1")]
    [leaf "wf" [("cmd", "done"); ("rdf", "location"); ("pos", "NNP");
                ("lemma", "New_York")] "New_York";
     node "chunk" [] [leaf "wf" [("pos", "NN")] "dogs"]].

Definition doc_entity : elt :=
  node "contextfile" [] [node "context" [] [node "p" [("pnum", "1")]
    [node "s" [("snum", "1")]
       [leaf "wf" [("cmd", "ignore"); ("pos", "DT")] "The";
        leaf_entity;
        leaf "punc" [] "."]]]].

(** The strings at the fringe of a value, read left to right: the
    words a list or a tree of chunks stands for. *)
Fixpoint fringe (v : pyval) : list string :=
  let fix go (xs : list pyval) : list string :=
    match xs with
    | [] => []
    | x :: xs' => fringe x ++ go xs'
    end in
  match v with
  | VStr s => [s]
  | VTuple xs => go xs
  | VList xs => go xs
  | VTree _ xs => go xs
  | VSentence _ xs => go xs
  | VNone => []
  | VBool _ => []
  end.

(** [leaf_under e x]: the leaf [x] is reached from [e] by going down
    through children that are not leaves. *)
Inductive leaf_under : elt → elt → Prop :=
| leaf_under_child e c :
    c ∈ children e → is_leaf c = true → leaf_under e c
| leaf_under_nested e c x :
    c ∈ children e → is_leaf c = false → leaf_under c x → leaf_under e x.

(** The items a sentence container holds. *)
Definition container_items (v : pyval) : list pyval :=
  match v with VSentence _ items => items | _ => [] end.

(** The leaves the materializer visits, sentence after sentence. *)
Definition collected_leaves (xmldoc : elt) : list elt :=
  mjoin ((λ xmlsent, _all_xmlwords_in xmlsent None) <$> findall_s xmldoc).

(** * Properties *)

(** ** Induction on elements *)

Lemma elt_nested_ind (P : elt → Prop) :
  (∀ t a x cs, Forall P cs → P (Element t a x cs)) → ∀ e, P e.
Proof.
  intros step. fix IH 1. intros [t a x cs]. apply step.
  induction cs as [|c cs IHcs]; constructor; [apply IH | exact IHcs].
Qed.

(** ** The error monad *)

Section monad.
Context {A B C : Type}.

Lemma bind_Ret_l (a : A) (f : A → py B) : (Ret a ≫= f) = f a.
Proof. reflexivity. Qed.

Lemma bind_Ret_r (m : py A) : (m ≫= Ret) = m.
Proof. by destruct m. Qed.

Lemma bind_assoc (m : py A) (f : A → py B) (g : B → py C) :
  ((m ≫= f) ≫= g) = (m ≫= λ a, f a ≫= g).
Proof. by destruct m. Qed.

Lemma bind_ext (m : py A) (f g : A → py B) :
  (∀ a, f a = g a) → (m ≫= f) = (m ≫= g).
Proof. intros H. destruct m; simpl; auto. Qed.

Lemma mapM_nil (f : A → py B) : mapM f [] = Ret [].
Proof. reflexivity. Qed.

Lemma mapM_cons (f : A → py B) x l :
  mapM f (x :: l) = (y ← f x; k ← mapM f l; Ret (y :: k)).
Proof. reflexivity. Qed.

Lemma mapM_app (f : A → py B) l1 l2 :
  mapM f (l1 ++ l2) = (k1 ← mapM f l1; k2 ← mapM f l2; Ret (k1 ++ k2)).
Proof.
  induction l1 as [|x l1 IH]; simpl.
  - by destruct (mapM f l2).
  - destruct (f x) as [y|e]; simpl; [|done].
    rewrite IH. destruct (mapM f l1); simpl; [|done].
    by destruct (mapM f l2).
Qed.

Lemma mapM_py_ext (f g : A → py B) l :
  Forall (λ x, f x = g x) l → mapM f l = mapM g l.
Proof.
  induction 1 as [|x l Hx _ IH]; simpl; [done|]. by rewrite Hx, IH.
Qed.

Lemma mapM_py_fmap (h : C → A) (f : A → py B) (l : list C) :
  mapM f (h <$> l) = mapM (f ∘ h) l.
Proof.
  induction l as [|x l IH]; [done|].
  by rewrite fmap_cons, !mapM_cons, IH.
Qed.

Lemma mapM_Ret (f : A → py B) (g : A → B) l :
  Forall (λ x, f x = Ret (g x)) l → mapM f l = Ret (g <$> l).
Proof.
  induction 1 as [|x l Hx _ IH]; [done|].
  by rewrite fmap_cons, mapM_cons, Hx, IH.
Qed.

Lemma mapM_Ret_Forall2 (f : A → py B) l k :
  mapM f l = Ret k → Forall2 (λ x y, f x = Ret y) l k.
Proof.
  revert k. induction l as [|x l IH]; simpl; intros k Hk.
  - injection Hk as <-. constructor.
  - destruct (f x) as [y|] eqn:Hx; simpl in Hk; [|done].
    destruct (mapM f l) as [k'|]; simpl in Hk; [|done].
    injection Hk as <-. constructor; auto.
Qed.

(** A loop that appends what each element contributes is a [mapM]. *)
Lemma for_each_append (f : A → py (list B)) acc l :
  for_each (λ acc x, ys ← f x; Ret (acc ++ ys)) acc l
  = (yss ← mapM f l; Ret (acc ++ mjoin yss)).
Proof.
  revert acc. induction l as [|x l IH]; intros acc; simpl.
  - by rewrite app_nil_r.
  - destruct (f x) as [ys|e]; simpl; [|done].
    rewrite IH. destruct (mapM f l); simpl; [|done].
    by rewrite app_assoc.
Qed.

Lemma for_each_ext (f g : B → A → py B) acc l :
  Forall (λ x, ∀ acc, f acc x = g acc x) l →
  for_each f acc l = for_each g acc l.
Proof.
  intros H. revert acc. induction H as [|x l Hx _ IH]; intros acc; simpl.
  - done.
  - rewrite Hx. destruct (g acc x); simpl; auto.
Qed.

End monad.

(** ** Built-in string operations *)

Module StrFacts.
Import Str.

Lemma append_assoc (a b c : string) : (a +:+ b) +:+ c = a +:+ (b +:+ c).
Proof.
  induction a as [|x a IH]; [done|].
  change (String x ((a +:+ b) +:+ c) = String x (a +:+ b +:+ c)).
  by rewrite IH.
Qed.

Lemma append_nil_r (a : string) : a +:+ "" = a.
Proof.
  induction a as [|x a IH]; [done|].
  change (String x (a +:+ "") = String x a). by rewrite IH.
Qed.

Lemma implode_app (l1 l2 : list string) :
  implode (l1 ++ l2) = implode l1 +:+ implode l2.
Proof.
  induction l1 as [|c l1 IH]; [done|].
  change (c +:+ implode (l1 ++ l2) = (c +:+ implode l1) +:+ implode l2).
  by rewrite IH, append_assoc.
Qed.

Lemma segments_spec s : (segments s).1 +:+ implode (segments s).2 = s.
Proof.
  induction s as [|a s IH]; [done|]. simpl.
  destruct (segments s) as [conts cs]. simpl in IH.
  destruct (is_continuation a); simpl.
  - change (String a (conts +:+ implode cs) = String a s). by rewrite IH.
  - change (String a (conts +:+ implode cs) = String a s). by rewrite IH.
Qed.

(** Cutting a text into its characters loses nothing. *)
Lemma implode_code_points s : implode (code_points s) = s.
Proof.
  pose proof (segments_spec s) as H. unfold code_points.
  destruct (segments s) as [[|b conts] cs]; simpl in *; done.
Qed.

Lemma is_space_spec c : is_space c = true ↔ code_point c ∈ whitespace.
Proof.
  unfold is_space. rewrite existsb_exists. split.
  - intros (x & Hin & ->%N.eqb_eq). by apply list_elem_of_In.
  - intros Hin. exists (code_point c).
    split; [by apply list_elem_of_In|apply N.eqb_refl].
Qed.

Lemma drop_spaces_spec cs :
  ∃ l, cs = l ++ drop_spaces cs ∧ Forall (λ c, is_space c = true) l.
Proof.
  induction cs as [|c cs (l & Hl & Hsp)]; [by exists []|]. simpl.
  destruct (is_space c) eqn:Hc.
  - exists (c :: l). split; [by rewrite Hl at 1|by constructor].
  - by exists [].
Qed.

Lemma drop_spaces_head cs c :
  head (drop_spaces cs) = Some c → is_space c = false.
Proof.
  induction cs as [|c' cs IH]; [done|]. simpl.
  destruct (is_space c') eqn:Hc; [done|]. by intros [= <-].
Qed.

(** [strip] takes off whitespace characters, and nothing else, at both
    ends until a character that is not whitespace is met. *)
Lemma strip_chars_spec cs :
  ∃ l r, cs = l ++ strip_chars cs ++ r
    ∧ Forall (λ c, is_space c = true) l ∧ Forall (λ c, is_space c = true) r
    ∧ (∀ c, head (strip_chars cs) = Some c → is_space c = false)
    ∧ (∀ c, last (strip_chars cs) = Some c → is_space c = false).
Proof.
  unfold strip_chars.
  destruct (drop_spaces_spec cs) as (l & Hl & Hlsp).
  destruct (drop_spaces_spec (reverse (drop_spaces cs))) as (r & Hr & Hrsp).
  set (k := drop_spaces (reverse (drop_spaces cs))) in *.
  assert (drop_spaces cs = reverse k ++ reverse r) as Hm.
  { rewrite <-reverse_app, <-Hr. by rewrite reverse_involutive. }
  exists l, (reverse r). split; [by rewrite <-Hm|].
  split; [done|]. split; [by apply Forall_reverse|]. split.
  - intros c Hc. apply (drop_spaces_head cs). rewrite Hm.
    destruct (reverse k); [done|]. exact Hc.
  - intros c Hc. rewrite last_reverse in Hc.
    by apply (drop_spaces_head (reverse (drop_spaces cs))).
Qed.

Lemma strip_spec s :
  ∃ l r, code_points s = l ++ code_points_stripped s ++ r
    ∧ Forall (λ c, is_space c = true) l ∧ Forall (λ c, is_space c = true) r
    ∧ (∀ c, head (code_points_stripped s) = Some c → is_space c = false)
    ∧ (∀ c, last (code_points_stripped s) = Some c → is_space c = false)
    ∧ s = implode l +:+ strip s +:+ implode r.
Proof.
  destruct (strip_chars_spec (code_points s)) as (l & r & Hs & Hl & Hr & Hh & Ht).
  exists l, r. repeat split; try done.
  rewrite <-(implode_code_points s) at 1. rewrite Hs.
  by rewrite !implode_app.
Qed.

Lemma split_nonempty sep s : split sep s ≠ [].
Proof.
  destruct s as [|a s]; [done|]. simpl.
  destruct (decide (a = sep)); [done|]. by destruct (split sep s).
Qed.

(** Splitting on the join marker and joining again gives the text back. *)
Lemma join_split sep s : join (String sep "") (split sep s) = s.
Proof.
  induction s as [|a s IH]; [done|]. simpl.
  pose proof (split_nonempty sep s) as Hne.
  destruct (decide (a = sep)) as [->|Hne'].
  - destruct (split sep s) as [|w ws]; [done|].
    change (String sep (join (String sep "") (w :: ws)) = String sep s).
    by rewrite IH.
  - destruct (split sep s) as [|w ws]; [done|].
    destruct ws as [|w' ws].
    + simpl in *. by rewrite IH.
    + change (String a (join (String sep "") (w :: w' :: ws)) = String a s).
      by rewrite IH.
Qed.

(** *** Decimal digits *)






(** *** Numerals of the standard library *)

Lemma segments_uint d :
  segments (NilEmpty.string_of_uint d) = ("", uint_chars d).
Proof. induction d; simpl; [done|by rewrite IHd..]. Qed.

Lemma length_uint d :
  String.length (NilEmpty.string_of_uint d) = length (uint_chars d).
Proof. induction d; simpl; [done|by rewrite IHd..]. Qed.

Lemma uint_chars_plain d :
  Forall (λ c, is_space c = false ∧ c ≠ "+" ∧ c ≠ "-"
               ∧ ∃ v, digit_value c = Some v ∧ (v < 10)%N) (uint_chars d).
Proof.
  induction d; simpl; constructor; try done;
    (split; [done|]; split; [done|]; split; [done|];
     eexists; split; [vm_compute; reflexivity|done]).
Qed.

Lemma digits_go_uint_pos d p :
  digits_go (Npos p) (uint_chars d) = Some (Npos (Pos.of_uint_acc d p)).
Proof.
  revert p. induction d; intros p; [done|..];
    cbn [uint_chars digits_go Pos.of_uint_acc];
    match goal with
    | |- context [digit_value ?c] =>
        let v := eval vm_compute in (digit_value c) in
        change (digit_value c) with v
    end; cbn [mbind option_bind];
    rewrite <-IHd; f_equal; lia.
Qed.

Lemma digits_go_uint d : digits_go 0 (uint_chars d) = Some (N.of_uint d).
Proof.
  unfold N.of_uint. induction d; [done|..];
    cbn [uint_chars digits_go Pos.of_uint];
    match goal with
    | |- context [digit_value ?c] =>
        let v := eval vm_compute in (digit_value c) in
        change (digit_value c) with v
    end; cbn [mbind option_bind];
    first [exact IHd | apply digits_go_uint_pos].
Qed.

Lemma strip_chars_plain cs :
  Forall (λ c, is_space c = false) cs → strip_chars cs = cs.
Proof.
  assert (∀ l, Forall (λ c, is_space c = false) l → drop_spaces l = l) as Hd.
  { intros l [|c l' Hc _]; [done|]. simpl. by rewrite Hc. }
  intros H. unfold strip_chars. rewrite (Hd cs H).
  rewrite Hd by (by apply Forall_reverse). apply reverse_involutive.
Qed.

(** A numeral printed by the standard library: its characters are
    ASCII digits and read back as the number. *)
Lemma decimal_chars (m : N) :
  ∃ cs, segments (decimal m) = ("", cs) ∧ cs ≠ []
        ∧ String.length (decimal m) = length cs
        ∧ Forall (λ c, is_space c = false ∧ c ≠ "+" ∧ c ≠ "-"
                       ∧ ∃ v, digit_value c = Some v ∧ (v < 10)%N) cs
        ∧ digits_go 0 cs = Some m.
Proof.
  unfold decimal. pose proof (DecimalN.Unsigned.of_to m) as Hm.
  destruct (N.to_uint m) as [|d|d|d|d|d|d|d|d|d|d] eqn:Hd.
  { exists ["0"]. simpl in Hm. subst m. repeat split; done. }
  all: match goal with
       | |- context [NilZero.string_of_uint ?u] =>
           exists (uint_chars u);
           change (NilZero.string_of_uint u) with (NilEmpty.string_of_uint u)
       end;
       split; [apply segments_uint|]; split; [done|];
       split; [apply length_uint|]; split; [apply uint_chars_plain|];
       rewrite digits_go_uint; by rewrite Hm.
Qed.

Lemma code_points_cons a s cs :
  is_continuation a = false → segments s = ("", cs) →
  code_points (String a s) = String a "" :: cs.
Proof. intros Ha Hs. unfold code_points. simpl. by rewrite Hs, Ha. Qed.

Lemma int_chars s c cs :
  code_points s = c :: cs → Forall (λ c, is_space c = false) (c :: cs) →
  int s = if decide (c = "+") then Z.of_N <$> digits cs
          else if decide (c = "-") then (λ n, - Z.of_N n)%Z <$> digits cs
          else Z.of_N <$> digits (c :: cs).
Proof. intros Hs Hp. unfold int. by rewrite Hs, strip_chars_plain. Qed.



Lemma int_plus_decimal (m : N) : int ("+" +:+ decimal m) = Some (Z.of_N m).
Proof.
  destruct (decimal_chars m) as (cs & Hseg & Hne & _ & Hplain & Hdig).
  rewrite (int_chars _ "+" cs).
  - rewrite decide_True by done.
    destruct cs; [done|]. unfold digits. by rewrite Hdig.
  - by apply code_points_cons.
  - constructor; [done|]. eapply Forall_impl; [exact Hplain|]. by intros ? [? _].
Qed.





End StrFacts.

(** ** Traversals *)

Section traversal.

Lemma walk_unfold ctx e :
  walk ctx e
  = (ctx ++ [tag e], e) :: mjoin (walk (ctx ++ [tag e]) <$> children e).
Proof.
  destruct e as [t a x cs]. simpl. f_equal.
  induction cs as [|c cs IH]; [done|]. by rewrite fmap_cons, IH.
Qed.

Lemma leaf_descendants_spec_unfold e :
  leaf_descendants_spec e
  = mjoin ((λ c, if is_leaf c then [c] else leaf_descendants_spec c)
           <$> children e).
Proof.
  destruct e as [t a x cs]. simpl.
  induction cs as [|c cs IH]; [done|]. by rewrite fmap_cons, IH.
Qed.

Lemma walk_context_irrelevant ctx ctx' e : (walk ctx e).*2 = (walk ctx' e).*2.
Proof.
  revert ctx ctx'. induction e as [t a x cs IH] using elt_nested_ind; intros ctx ctx'.
  rewrite !walk_unfold, !fmap_cons. simpl. f_equal.
  induction IH as [|c cs Hc _ IHcs]; [done|].
  rewrite !fmap_cons. simpl. rewrite !fmap_app. f_equal; [apply Hc|apply IHcs].
Qed.

Lemma iter_unfold e : iter e = e :: mjoin (iter <$> children e).
Proof.
  unfold iter at 1. rewrite walk_unfold, fmap_cons. simpl. f_equal.
  induction (children e) as [|c cs IH]; [done|].
  rewrite !fmap_cons. simpl. rewrite fmap_app, IH. f_equal.
  apply walk_context_irrelevant.
Qed.

(** The accumulator only ever grows at its end. *)
Lemma all_xmlwords_in_acc e acc :
  _all_xmlwords_in e (Some acc) = acc ++ leaf_descendants_spec e.
Proof.
  revert acc. induction e as [t a x cs IH] using elt_nested_ind; intros acc. simpl.
  revert acc. induction IH as [|c cs Hc _ IHcs]; intros acc.
  - by rewrite app_nil_r.
  - rewrite IHcs. destruct (is_leaf c); [|rewrite Hc]; by rewrite <-app_assoc.
Qed.

Lemma all_xmlwords_in_fresh e :
  _all_xmlwords_in e None = leaf_descendants_spec e.
Proof.
  transitivity (_all_xmlwords_in e (Some [])); [by destruct e|].
  apply all_xmlwords_in_acc.
Qed.

Lemma leaf_descendants_are_leaves e :
  Forall (λ x, is_leaf x = true) (leaf_descendants_spec e).
Proof.
  induction e as [t a x cs IH] using elt_nested_ind. rewrite leaf_descendants_spec_unfold. simpl.
  induction IH as [|c cs Hc _ IHcs]; [constructor|].
  rewrite fmap_cons. simpl. apply Forall_app. split; [|exact IHcs].
  destruct (is_leaf c) eqn:Hl; [by repeat constructor|exact Hc].
Qed.

Lemma leaf_descendants_flat e :
  Forall (λ c, is_leaf c = true) (children e) →
  leaf_descendants_spec e = children e.
Proof.
  rewrite leaf_descendants_spec_unfold.
  induction 1 as [|c cs Hc _ IH]; [done|].
  rewrite fmap_cons. simpl. by rewrite Hc, IH.
Qed.

(** Document order: the leaves come in the order of [Element.iter]. *)
Lemma leaf_descendants_sublist e : leaf_descendants_spec e `sublist_of` iter e.
Proof.
  induction e as [t a x cs IH] using elt_nested_ind.
  rewrite leaf_descendants_spec_unfold, iter_unfold. simpl.
  apply sublist_cons.
  induction IH as [|c cs Hc _ IHcs]; [done|].
  rewrite !fmap_cons. simpl. apply sublist_app; [|exact IHcs].
  destruct (is_leaf c); [|exact Hc].
  rewrite iter_unfold. apply sublist_skip, sublist_nil_l.
Qed.

End traversal.

(** C5. The leaf collector [_all_xmlwords_in] returns the leaves of an
    element in document order: each leaf child as it is, without looking
    inside it, and for every other child the leaves collected from it,
    whatever the depth.  Everything it returns is tagged [wf] or [punc];
    an element without children gives the empty sequence; a sentence
    whose children are all leaves gives back its children unchanged. *)
Theorem leaf_collector_preorder (e : elt) :
  _all_xmlwords_in e None = leaf_descendants_spec e
  ∧ _all_xmlwords_in e None
    = mjoin ((λ c, if is_leaf c then [c] else _all_xmlwords_in c None)
             <$> children e)
  ∧ Forall (λ x, is_leaf x = true) (_all_xmlwords_in e None)
  ∧ _all_xmlwords_in e None `sublist_of` iter e
  ∧ (children e = [] → _all_xmlwords_in e None = [])
  ∧ (Forall (λ c, is_leaf c = true) (children e) →
     _all_xmlwords_in e None = children e).
Proof.
  rewrite all_xmlwords_in_fresh. repeat split.
  - rewrite leaf_descendants_spec_unfold. f_equal.
    apply list_fmap_ext. intros _ c _. by rewrite all_xmlwords_in_fresh.
  - apply leaf_descendants_are_leaves.
  - apply leaf_descendants_sublist.
  - intros Hc. by rewrite leaf_descendants_spec_unfold, Hc.
  - apply leaf_descendants_flat.
Qed.

Lemma leaf_collector_preorder_witness :
  _all_xmlwords_in sent_flat None = children sent_flat
  ∧ _all_xmlwords_in (leaf "wf" [] "It") None = []
  ∧ _all_xmlwords_in sent_nested None
    = [leaf "wf" [] "The"; leaf "wf" [] "New_York"; leaf "wf" [] "Times";
       leaf "punc" [] "."].
Proof.
  split; [|split].
  - apply (leaf_collector_preorder sent_flat). by repeat constructor.
  - by apply (leaf_collector_preorder (leaf "wf" [] "It")).
  - destruct (leaf_collector_preorder sent_nested) as [-> _]. reflexivity.
Defined.

(** ** The item builder *)

Section item_builder.
Implicit Types (xmlword : elt) (unit : granularity).
Implicit Types pos_tag sem_tag strip_space : bool.

Lemma word_returns xmlword unit pos_tag sem_tag strip_space :
  _word xmlword unit pos_tag sem_tag strip_space
  = (if sense_unbound xmlword unit sem_tag
     then Raise (UnboundLocalError "sense")
     else _word xmlword unit pos_tag sem_tag strip_space)
  ∧ returns (_word xmlword unit pos_tag sem_tag strip_space)
    = negb (sense_unbound xmlword unit sem_tag).
Proof.
  unfold sense_unbound, _word.
  destruct unit, pos_tag, sem_tag; simpl; try done;
    destruct (attrib xmlword !! "rdf"), (attrib xmlword !! "wnsn");
    simpl; done.
Qed.

Lemma word_not_None xmlword unit pos_tag sem_tag strip_space itm :
  _word xmlword unit pos_tag sem_tag strip_space = Ret itm →
  is_VNone itm = false.
Proof.
  unfold _word.
  destruct unit, pos_tag, sem_tag; simpl;
    try (intros [= <-]; done);
    destruct (attrib xmlword !! "rdf"), (attrib xmlword !! "wnsn");
    simpl; intros [= <-]; done.
Qed.

Lemma word_Word xmlword pos_tag sem_tag strip_space :
  _word xmlword Word pos_tag sem_tag strip_space
  = Ret (VList (VStr <$> Str.split "_" (surface xmlword strip_space))).
Proof. reflexivity. Qed.

(** With a sense number the entity branch builds the nested tree. *)
Lemma word_entity_with_sense xmlword pos_tag strip_space sensenum :
  is_Some (attrib xmlword !! "rdf") →
  attrib xmlword !! "wnsn" = Some sensenum →
  let tkn := surface xmlword strip_space in
  let ww := VStr <$> Str.split "_" tkn in
  let bottom :=
    if pos_tag then [VTree (of_opt_str (attrib xmlword !! "pos")) ww] else ww in
  _word xmlword Chunk pos_tag true strip_space
  = Ret (VTree (VStr (sense_key (default tkn (attrib xmlword !! "lemma")) sensenum))
           [VTree (VStr "NE") bottom]).
Proof.
  intros Hrdf Hsn. unfold _word. rewrite Hsn. simpl.
  by rewrite (bool_decide_eq_true_2 _ Hrdf).
Qed.


End item_builder.




(** C7. At token granularity with neither part-of-speech nor semantic
    tags, the item built from a leaf is its plain surface text: the
    empty string when the text is absent, stripped of its leading and
    trailing whitespace exactly when [strip_space] is set, unchanged
    otherwise.  Stripping takes off the whitespace characters at both
    ends, those of Unicode among them, and stops at the first character
    that is not whitespace.  The builder returns for every leaf, with
    or without text. *)
Theorem token_untagged_is_surface_text (xmlword : elt) (strip_space : bool) :
  let raw := default "" (text xmlword) in
  _word xmlword Token false false strip_space
  = Ret (VStr (if strip_space then Str.strip raw else raw))
  ∧ (∃ l r, Str.code_points raw = l ++ Str.code_points_stripped raw ++ r
            ∧ Forall (λ c, Str.is_space c = true) l
            ∧ Forall (λ c, Str.is_space c = true) r
            ∧ (∀ c, head (Str.code_points_stripped raw) = Some c →
                    Str.is_space c = false)
            ∧ (∀ c, last (Str.code_points_stripped raw) = Some c →
                    Str.is_space c = false)
            ∧ Str.strip raw = Str.implode (Str.code_points_stripped raw)
            ∧ raw = Str.implode l +:+ Str.strip raw +:+ Str.implode r)
  ∧ _word (Element "wf" ∅ None []) Token false false strip_space = Ret (VStr "")
  ∧ _word (Element "wf" ∅ (Some "") []) Token false false strip_space = Ret (VStr "")
  ∧ _word (leaf "wf" [("pos", "DT")] " The ") Token false false true = Ret (VStr "The")
  ∧ _word (leaf "wf" [("pos", "DT")] " The ") Token false false false = Ret (VStr " The ")
  ∧ _word (leaf "wf" [] (no_break_space +:+ "The" +:+ ideographic_space))
          Token false false true
    = Ret (VStr "The")
  ∧ _word (leaf "wf" [] (" New" +:+ no_break_space +:+ "York" +:+ tab_newline))
          Token false false true
    = Ret (VStr ("New" +:+ no_break_space +:+ "York"))
  ∧ Str.code_points (no_break_space +:+ "a" +:+ e_acute +:+ ideographic_space)
    = [no_break_space; "a"; e_acute; ideographic_space]
  ∧ (∀ c, Str.is_space c = true
          ↔ Str.code_point c
            ∈ [0x9; 0xA; 0xB; 0xC; 0xD; 0x1C; 0x1D; 0x1E; 0x1F; 0x20; 0x85;
               0xA0; 0x1680; 0x180E; 0x2000; 0x2001; 0x2002; 0x2003; 0x2004;
               0x2005; 0x2006; 0x2007; 0x2008; 0x2009; 0x200A; 0x2028; 0x2029;
               0x202F; 0x205F; 0x3000]%N)
  ∧ Str.code_point "A" = 0x41%N
  ∧ Str.code_point no_break_space = 0xA0%N
  ∧ Str.code_point e_acute = 0xE9%N
  ∧ Str.code_point ideographic_space = 0x3000%N
  ∧ Str.code_point bold_five = 0x1D7D3%N.
Proof.
  split; [|split; [|split; [|split]]].
  - unfold _word, surface. simpl.
    destruct (text xmlword) as [s|]; simpl; [|done].
    by destruct (decide (s = "")) as [->|].
  - destruct (StrFacts.strip_spec (default "" (text xmlword)))
      as (l & r & H1 & H2 & H3 & H4 & H5 & H6).
    exists l, r. repeat split; done.
  - by destruct strip_space.
  - by destruct strip_space.
  - split; [vm_compute; reflexivity|]. split; [vm_compute; reflexivity|].
    split; [vm_compute; reflexivity|]. split; [vm_compute; reflexivity|].
    split; [vm_compute; reflexivity|]. split; [apply StrFacts.is_space_spec|].
    repeat split; vm_compute; reflexivity.
Qed.

(** C10. A leaf that carries the out-of-vocabulary-entity attribute
    [rdf] but no sense number [wnsn] cannot be built at chunk
    granularity with semantic tags: the variable [sense] is bound only
    when a sense number is present, the entity branch reads it anyway,
    and the builder raises [UnboundLocalError] instead of returning the
    tree wrapped in [NE]. *)
Theorem entity_without_sense_number_fails (xmlword : elt)
    (pos_tag strip_space : bool) :
  is_Some (attrib xmlword !! "rdf") →
  attrib xmlword !! "wnsn" = None →
  _word xmlword Chunk pos_tag true strip_space
  = Raise (UnboundLocalError "sense").
Proof.
  intros Hrdf Hsn. unfold _word. rewrite Hsn. simpl.
  by rewrite (bool_decide_eq_true_2 _ Hrdf).
Qed.

Lemma entity_without_sense_number_fails_witness :
  ∃ xmlword, is_Some (attrib xmlword !! "rdf")
    ∧ attrib xmlword !! "wnsn" = None
    ∧ ∀ pos_tag strip_space,
        _word xmlword Chunk pos_tag true strip_space
        = Raise (UnboundLocalError "sense").
Proof.
  exists leaf_entity.
  assert (Hrdf : is_Some (attrib leaf_entity !! "rdf")) by (by eexists).
  assert (Hsn : attrib leaf_entity !! "wnsn" = None) by reflexivity.
  split; [exact Hrdf|]. split; [exact Hsn|].
  intros pos_tag strip_space.
  exact (entity_without_sense_number_fails leaf_entity pos_tag strip_space Hrdf Hsn).
Defined.

(** C4, on the code.  The entity of the specification's scenario (flag
    set, part of speech [NNP], sub-words [New] and [York], lemma
    [New_York], no sense number) is not built into the tree labelled
    with the sense key over [NE] over [NNP]: the builder raises.  The
    same leaf with a sense number, numeric or not, is built into
    exactly that tree. *)
Theorem entity_scenario_raises :
  _word leaf_entity Chunk true true true = Raise (UnboundLocalError "sense")
  ∧ _word (leaf "wf" [("rdf", "location"); ("pos", "NNP");
                      ("lemma", "New_York"); ("wnsn", "1")] "New_York")
          Chunk true true true
    = Ret (VTree (VStr "New_York.01")
             [VTree (VStr "NE") [VTree (VStr "NNP") [VStr "New"; VStr "York"]]])
  ∧ _word (leaf "wf" [("rdf", "location"); ("pos", "NNP");
                      ("lemma", "New_York"); ("wnsn", "2;1")] "New_York")
          Chunk true true true
    = Ret (VTree (VStr "New_York.2;1")
             [VTree (VStr "NE") [VTree (VStr "NNP") [VStr "New"; VStr "York"]]]).
Proof. repeat split; vm_compute; reflexivity. Qed.

(** ** The eager materializer as a map over leaves *)

Section eager.
Context (unit : granularity) (pos_tag sem_tag strip_space : bool).

Local Abbreviation contrib := (contribution unit pos_tag sem_tag strip_space).
Local Abbreviation build := (λ x, _word x unit pos_tag sem_tag strip_space).
Local Abbreviation container :=
  (sentence_container unit pos_tag sem_tag strip_space).

Lemma for_each_snoc {A B} (f : A → py B) acc l :
  for_each (λ acc x, v ← f x; Ret (acc ++ [v])) acc l
  = (vs ← mapM f l; Ret (acc ++ vs)).
Proof.
  revert acc. induction l as [|x l IH]; intros acc; simpl.
  - by rewrite app_nil_r.
  - destruct (f x) as [v|e]; simpl; [|done].
    rewrite IH. destruct (mapM f l); simpl; [|done].
    by rewrite <-app_assoc.
Qed.

Lemma mapM_join_join {A B} (f : A → py (list B)) (ls : list (list A)) :
  (yss ← mapM (λ l, zss ← mapM f l; Ret (mjoin zss)) ls; Ret (mjoin yss))
  = (zss ← mapM f (mjoin ls); Ret (mjoin zss)).
Proof.
  induction ls as [|l ls IH]; [done|].
  rewrite mapM_cons. change (mjoin (l :: ls)) with (l ++ mjoin ls).
  rewrite mapM_app. destruct (mapM f l) as [zs|e]; simpl; [|done].
  revert IH. destruct (mapM _ ls) as [yss|e]; simpl;
    destruct (mapM f (mjoin ls)) as [zss|e']; simpl; try done.
  intros [= ->]. by rewrite join_app.
Qed.

Lemma mapM_singletons {A B} (f : A → py B) (l : list A) :
  (yss ← mapM (λ x, v ← f x; Ret [v]) l; Ret (mjoin yss)) = mapM f l.
Proof.
  induction l as [|x l IH]; [done|].
  rewrite !mapM_cons. destruct (f x) as [v|e]; simpl; [|done].
  revert IH. destruct (mapM _ l) as [yss|e]; simpl;
    destruct (mapM f l) as [vs|e']; simpl; try done.
  by intros [= ->].
Qed.

(** The inner loop of [_words] and of [handle_sent]. *)
Lemma sentence_loop acc l :
  for_each (λ sent xmlword,
      itm ← build xmlword;
      if decide (unit = Word) then extend sent itm else Ret (sent ++ [itm]))
    acc l
  = (yss ← mapM contrib l; Ret (acc ++ mjoin yss)).
Proof.
  rewrite <-for_each_append. apply for_each_ext, Forall_forall.
  intros x _ sent. unfold contribution, extend.
  destruct (build x) as [itm|e]; simpl; [|done].
  destruct (decide (unit = Word)); [done|]. simpl. done.
Qed.

Lemma contribution_not_None l yss :
  mapM contrib l = Ret yss → existsb is_VNone (mjoin yss) = false.
Proof.
  intros H%mapM_Ret_Forall2.
  induction H as [|x ys l yss Hx _ IH]; [done|].
  change (mjoin (ys :: yss)) with (ys ++ mjoin yss).
  rewrite existsb_app, IH, orb_false_r. clear IH.
  unfold contribution in Hx.
  destruct (build x) as [itm|e] eqn:Hb; simpl in Hx; [|done].
  destruct (decide (unit = Word)) as [->|_].
  - rewrite word_Word in Hb. injection Hb as <-. injection Hx as <-.
    induction (Str.split _ _); simpl; auto.
  - injection Hx as <-. simpl.
    by rewrite (word_not_None _ _ _ _ _ _ Hb).
Qed.

(** Without sentence bracketing the materializer returns, leaf after
    leaf, what each leaf contributes; its final assertion holds. *)
Lemma words_flat xmldoc :
  _words xmldoc unit false pos_tag sem_tag strip_space
  = (yss ← mapM contrib
             (mjoin ((λ s, _all_xmlwords_in s None) <$> findall_s xmldoc));
     Ret (mjoin yss)).
Proof.
  unfold _words.
  rewrite (for_each_ext _ (λ acc s,
             ys ← sentence_items unit pos_tag sem_tag strip_space s;
             Ret (acc ++ ys))).
  2:{ apply Forall_forall. intros s _ acc. rewrite sentence_loop.
      unfold sentence_items. by destruct (mapM _ _). }
  rewrite for_each_append.
  pose proof (mapM_join_join contrib
                ((λ s, _all_xmlwords_in s None) <$> findall_s xmldoc)) as Hj.
  rewrite mapM_py_fmap in Hj.
  change (mapM _ (findall_s xmldoc))
    with (mapM (sentence_items unit pos_tag sem_tag strip_space)
               (findall_s xmldoc)) in Hj.
  destruct (mapM contrib _) as [zss|e] eqn:Hm;
    destruct (mapM (sentence_items _ _ _ _) _) as [yss|e'];
    simpl in *; try done.
  injection Hj as ->. by rewrite (contribution_not_None _ _ Hm).
Qed.

Lemma words_bracketed xmldoc :
  _words xmldoc unit true pos_tag sem_tag strip_space
  = mapM container (findall_s xmldoc).
Proof.
  unfold _words.
  rewrite (for_each_ext _ (λ acc s, v ← container s; Ret (acc ++ [v]))).
  2:{ apply Forall_forall. intros s _ acc. rewrite sentence_loop.
      unfold sentence_container, sentence_items.
      destruct (mapM _ _); simpl; [|done]. by destruct (getitem _ _). }
  rewrite for_each_snoc. simpl.
  destruct (mapM _ _) as [vs|e] eqn:Hm; simpl; [|done].
  apply mapM_Ret_Forall2 in Hm.
  assert (existsb is_VNone vs = false) as ->; [|done].
  induction Hm as [|s v l vs Hs _ IH]; [done|]. simpl. rewrite IH.
  unfold sentence_container in Hs.
  destruct (sentence_items _ _ _ _ _); simpl in Hs; [|done].
  destruct (getitem _ _); simpl in Hs; [|done]. by injection Hs as <-.
Qed.

(** At chunk and token granularity the output has one item per leaf. *)
Lemma words_one_item_per_leaf xmldoc :
  unit ≠ Word →
  _words xmldoc unit false pos_tag sem_tag strip_space
  = mapM build (mjoin ((λ s, _all_xmlwords_in s None) <$> findall_s xmldoc)).
Proof.
  intros Hne. rewrite words_flat, <-(mapM_singletons build).
  f_equal. apply mapM_py_ext, Forall_forall. intros x _.
  unfold contribution. by destruct (decide (unit = Word)).
Qed.

(** Whatever the materializer returns holds no [None]. *)
Lemma words_no_None xmldoc bracket_sent result :
  _words xmldoc unit bracket_sent pos_tag sem_tag strip_space = Ret result →
  existsb is_VNone result = false.
Proof.
  unfold _words. destruct (for_each _ _ _) as [r|e]; simpl; [|done].
  destruct (existsb is_VNone r) eqn:Hr; [done|]. by intros [= <-].
Qed.

End eager.

(** ** The structural stream *)

Section stream.

Local Abbreviation sent_spec := ".*/s".
Local Abbreviation leaf_spec := ".*/s/(punc|wf)".
Local Abbreviation matching spec :=
  (filter (λ pe : list string * elt, path_matches spec pe.1 = true)).
Local Abbreviation sentences := (filter (λ e : elt, tag e = "s")).

Lemma join_cons {A} (l : list A) ls : mjoin (l :: ls) = l ++ mjoin ls.
Proof. reflexivity. Qed.

Lemma path_matches_root spec t : path_matches spec [t] = false.
Proof. reflexivity. Qed.

Lemma path_matches_sent ctx t :
  ctx ≠ [] → path_matches sent_spec (ctx ++ [t]) = bool_decide (t = "s").
Proof.
  intros Hctx. unfold path_matches. rewrite reverse_app. simpl.
  destruct (reverse ctx) as [|p rest] eqn:Hr; [|done].
  apply (f_equal reverse) in Hr. rewrite reverse_involutive in Hr. done.
Qed.

Lemma path_matches_leaf ctx p t :
  path_matches leaf_spec (ctx ++ [p; t])
  = (bool_decide (t = "punc") || bool_decide (t = "wf"))
    && bool_decide (p = "s") && negb (bool_decide (ctx = [])).
Proof.
  unfold path_matches. rewrite reverse_app. simpl. do 3 f_equal.
  apply bool_decide_ext. split; intros H.
  - apply (f_equal reverse) in H. by rewrite reverse_involutive in H.
  - by rewrite H.
Qed.

Lemma matching_children spec ctx (cs : list elt) (g : elt → list elt) :
  Forall (λ c, (matching spec (walk ctx c)).*2 = g c) cs →
  (matching spec (mjoin (walk ctx <$> cs))).*2 = mjoin (g <$> cs).
Proof.
  induction 1 as [|c cs Hc _ IH]; [done|].
  rewrite !fmap_cons. simpl. by rewrite filter_app, fmap_app, Hc, IH.
Qed.

Lemma sentences_join (ls : list (list elt)) :
  sentences (mjoin ls) = mjoin (sentences <$> ls).
Proof.
  induction ls as [|l ls IH]; [done|].
  rewrite fmap_cons. simpl. by rewrite filter_app, IH.
Qed.

Lemma walk_sentences ctx c :
  ctx ≠ [] → (matching sent_spec (walk ctx c)).*2 = sentences (iter c).
Proof.
  revert ctx. induction c as [t a x cs IH] using elt_nested_ind.
  intros ctx Hctx. rewrite walk_unfold, iter_unfold. simpl.
  rewrite !filter_cons. simpl. rewrite path_matches_sent by done.
  assert ((matching sent_spec (mjoin (walk (ctx ++ [t]) <$> cs))).*2
          = sentences (mjoin (iter <$> cs))) as Hcs.
  { rewrite sentences_join, <-list_fmap_compose.
    apply matching_children. eapply Forall_impl; [exact IH|].
    intros c Hc. apply Hc. by destruct ctx. }
  destruct (decide (t = "s")) as [->|Hne].
  - rewrite bool_decide_eq_true_2 by done.
    rewrite decide_True by done. by rewrite fmap_cons, Hcs.
  - rewrite bool_decide_eq_false_2 by done.
    rewrite decide_False by done. exact Hcs.
Qed.

(** The pattern [.*/s] streams the sentences [findall('.//s')] finds. *)
Lemma stream_sentences xmldoc : (stream sent_spec xmldoc).*2 = findall_s xmldoc.
Proof.
  unfold stream, findall_s. rewrite walk_unfold, filter_cons. simpl.
  rewrite sentences_join, <-list_fmap_compose.
  apply matching_children, Forall_forall. intros c _.
  by apply walk_sentences.
Qed.

Lemma sentence_free_spec e :
  sentence_free e = true → ∀ x, x ∈ iter e → tag x ≠ "s".
Proof.
  unfold sentence_free. intros H%Is_true_true_2%forallb_True x Hx.
  rewrite Forall_forall in H. specialize (H x Hx).
  apply Is_true_true_1, negb_true_iff in H. by apply bool_decide_eq_false_1 in H.
Qed.

Lemma sentences_none (l : list elt) :
  (∀ x, x ∈ l → tag x ≠ "s") → sentences l = [].
Proof.
  induction l as [|x l IH]; intros H; [done|].
  rewrite filter_cons, decide_False by (apply H, elem_of_cons; by left).
  apply IH. intros y Hy. apply H, elem_of_cons. by right.
Qed.

(** Below an element that holds no sentence the leaf pattern matches
    nothing. *)
Lemma walk_sentence_free ctx k :
  (∀ x, x ∈ iter k → tag x ≠ "s") →
  path_matches leaf_spec (ctx ++ [tag k]) = false →
  matching leaf_spec (walk ctx k) = [].
Proof.
  revert ctx. induction k as [t a x cs IH] using elt_nested_ind.
  intros ctx Hfree Hhead. rewrite walk_unfold. simpl in *.
  rewrite filter_cons. cbn [fst]. rewrite Hhead.
  rewrite decide_False by done.
  assert (t ≠ "s") as Ht.
  { apply (Hfree (Element t a x cs)). rewrite iter_unfold.
    apply elem_of_cons. by left. }
  assert (∀ c, c ∈ cs → ∀ y, y ∈ iter c → tag y ≠ "s") as Hcs.
  { intros c Hc y Hy. apply Hfree. rewrite iter_unfold. simpl.
    apply elem_of_cons. right. apply list_elem_of_join.
    exists (iter c). split; [done|]. by apply list_elem_of_fmap_2. }
  clear Hfree Hhead.
  induction IH as [|c cs Hc _ IHcs]; [done|].
  rewrite fmap_cons, join_cons, filter_app.
  rewrite Hc, IHcs; [done| | |].
  - intros c' Hc'. apply Hcs, elem_of_cons. by right.
  - apply Hcs, elem_of_cons. by left.
  - rewrite <-(assoc_L (++)). cbn [app]. rewrite path_matches_leaf.
    rewrite (bool_decide_eq_false_2 (t = "s")) by done.
    by rewrite andb_false_r.
Qed.

Lemma walk_flat_children ctx cs :
  ctx ≠ [] →
  forallb (λ c, is_leaf c && sentence_free c) cs = true →
  (matching leaf_spec (mjoin (walk (ctx ++ ["s"]) <$> cs))).*2 = cs
  ∧ sentences (mjoin (iter <$> cs)) = [].
Proof.
  intros Hctx. induction cs as [|k cs IH]; [done|].
  cbn [forallb]. intros [[Hleaf Hfree]%andb_prop Hcs]%andb_prop.
  destruct (IH Hcs) as [IH1 IH2]. clear IH.
  pose proof (sentence_free_spec k Hfree) as Hk.
  rewrite !fmap_cons, !join_cons, !filter_app, fmap_app, IH1, IH2.
  rewrite (sentences_none (iter k)) by done. split; [|done].
  rewrite walk_unfold, filter_cons. cbn [fst].
  rewrite <-(assoc_L (++)). cbn [app]. rewrite path_matches_leaf.
  unfold is_leaf in Hleaf. rewrite orb_comm, Hleaf.
  rewrite (bool_decide_eq_true_2 ("s" = "s")) by done.
  rewrite (bool_decide_eq_false_2 (ctx = [])) by done. cbn [andb negb].
  rewrite decide_True by done. rewrite fmap_cons. cbn [snd app]. f_equal.
  assert (tag k ≠ "s") as Ht.
  { apply Hk. rewrite iter_unfold. apply elem_of_cons. by left. }
  assert (matching leaf_spec
            (mjoin (walk (ctx ++ ["s"; tag k]) <$> children k)) = [])
    as ->; [|done].
  assert (∀ c, c ∈ children k → ∀ y, y ∈ iter c → tag y ≠ "s") as Hin.
  { intros c Hc y Hy. apply Hk. rewrite iter_unfold.
    apply elem_of_cons. right. apply list_elem_of_join.
    exists (iter c). split; [done|]. by apply list_elem_of_fmap_2. }
  induction (children k) as [|c l IHl]; [done|].
  rewrite fmap_cons, join_cons, filter_app.
  rewrite walk_sentence_free, IHl; [done| | |].
  - intros c' Hc'. apply Hin, elem_of_cons. by right.
  - apply Hin, elem_of_cons. by left.
  - replace ((ctx ++ ["s"; tag k]) ++ [tag c])
      with ((ctx ++ ["s"]) ++ [tag k; tag c])
      by (by rewrite <-!(assoc_L (++))).
    rewrite path_matches_leaf.
    rewrite (bool_decide_eq_false_2 (tag k = "s")) by done.
    by rewrite andb_false_r.
Qed.

Lemma walk_leaves ctx c :
  ctx ≠ [] →
  path_matches leaf_spec (ctx ++ [tag c]) = false →
  (∀ s, s ∈ iter c → tag s = "s" → flat_sentence s = true) →
  (matching leaf_spec (walk ctx c)).*2 = mjoin (children <$> sentences (iter c)).
Proof.
  revert ctx. induction c as [t a x cs IH] using elt_nested_ind.
  intros ctx Hctx Hhead Hflat. rewrite walk_unfold, iter_unfold. simpl.
  simpl in Hhead. rewrite !filter_cons. simpl. rewrite Hhead. simpl.
  destruct (decide (t = "s")) as [->|Hne].
  - assert (flat_sentence (Element "s" a x cs) = true) as Hcs.
    { apply Hflat; [|done]. rewrite iter_unfold. apply elem_of_cons. by left. }
    destruct (walk_flat_children ctx cs Hctx Hcs) as [-> ->].
    rewrite fmap_cons. simpl. by rewrite app_nil_r.
  - rewrite (matching_children leaf_spec (ctx ++ [t]) cs
               (λ c, mjoin (children <$> sentences (iter c)))).
    2:{ rewrite Forall_forall in IH. apply Forall_forall. intros k Hk.
        apply IH; [done|by destruct ctx| |].
        - rewrite <-(assoc_L (++)). simpl. rewrite path_matches_leaf.
          rewrite (bool_decide_eq_false_2 (t = "s")) by done.
          by rewrite andb_false_r.
        - intros s Hs. apply Hflat. rewrite iter_unfold. simpl.
          apply elem_of_cons. right. apply list_elem_of_join.
          exists (iter k). split; [done|]. by apply list_elem_of_fmap_2. }
    clear. induction cs as [|k cs IH]; [done|].
    by rewrite !fmap_cons, !join_cons, filter_app, fmap_app, join_app, IH.
Qed.

(** On a flat document the pattern [.*/s/(punc|wf)] streams the
    children of the sentences, sentence after sentence. *)
Lemma stream_leaves xmldoc :
  flat_document xmldoc = true →
  (stream leaf_spec xmldoc).*2 = mjoin (children <$> findall_s xmldoc).
Proof.
  unfold flat_document, findall_s. intros Hflat.
  apply Is_true_true_2, forallb_True in Hflat. rewrite Forall_forall in Hflat.
  unfold stream. rewrite walk_unfold, filter_cons. simpl.
  rewrite (matching_children leaf_spec [tag xmldoc] (children xmldoc)
             (λ c, mjoin (children <$> sentences (iter c)))).
  2:{ apply Forall_forall. intros k Hk. apply walk_leaves; [done| |].
      - change ([tag xmldoc] ++ [tag k]) with ([] ++ [tag xmldoc; tag k]).
        rewrite path_matches_leaf. simpl. by rewrite andb_false_r.
      - intros s Hs Htag. apply Is_true_true_1, Hflat.
        apply list_elem_of_filter. split; [done|].
        apply list_elem_of_join. exists (iter k). split; [done|].
        by apply list_elem_of_fmap_2. }
  generalize (children xmldoc). clear.
  induction l as [|k cs IH]; [done|].
  by rewrite !fmap_cons, !join_cons, filter_app, fmap_app, join_app, IH.
Qed.

End stream.

(** ** The lazy view against the eager materializer *)

Section lazy.
Context (unit : granularity) (pos_tag sem_tag strip_space : bool).

Local Abbreviation view xmldoc bracket_sent :=
  (SemcorWordView__init__ xmldoc unit bracket_sent pos_tag sem_tag strip_space).

Lemma view_items_bracketed xmldoc :
  view_items (view xmldoc true)
  = mapM (handle_sent (view xmldoc true)) (findall_s xmldoc).
Proof.
  unfold view_items, handle_elt. simpl.
  by rewrite <-stream_sentences, mapM_py_fmap.
Qed.

Lemma view_items_unbracketed xmldoc :
  view_items (view xmldoc false)
  = mapM (λ x, _word x unit pos_tag sem_tag strip_space)
         (stream ".*/s/(punc|wf)" xmldoc).*2.
Proof. unfold view_items, handle_elt. simpl. by rewrite mapM_py_fmap. Qed.

(** On a sentence whose children are all leaves, [handle_sent] builds
    what the materializer builds. *)
Lemma handle_sent_flat xmldoc b xmlsent :
  Forall (λ c, is_leaf c = true) (children xmlsent) →
  handle_sent (view xmldoc b) xmlsent
  = sentence_container unit pos_tag sem_tag strip_space xmlsent.
Proof.
  intros Hflat. unfold handle_sent, sentence_container, sentence_items.
  rewrite all_xmlwords_in_fresh, (leaf_descendants_flat _ Hflat).
  rewrite (for_each_ext _ (λ sent xmlword,
             itm ← _word xmlword unit pos_tag sem_tag strip_space;
             if decide (unit = Word) then extend sent itm
             else Ret (sent ++ [itm]))).
  2:{ eapply Forall_impl; [exact Hflat|]. intros c Hc acc. by rewrite Hc. }
  rewrite sentence_loop. by destruct (mapM _ _).
Qed.

Lemma flat_sentence_leaves xmlsent :
  flat_sentence xmlsent = true →
  Forall (λ c, is_leaf c = true) (children xmlsent).
Proof.
  unfold flat_sentence. intros H%Is_true_true_2%forallb_True.
  eapply Forall_impl; [exact H|]. intros c Hc%Is_true_true_1.
  by apply andb_prop in Hc as [? _].
Qed.

Lemma flat_document_sentences xmldoc :
  flat_document xmldoc = true →
  Forall (λ s, Forall (λ c, is_leaf c = true) (children s)) (findall_s xmldoc).
Proof.
  unfold flat_document. intros H%Is_true_true_2%forallb_True.
  eapply Forall_impl; [exact H|]. intros s Hs%Is_true_true_1.
  by apply flat_sentence_leaves.
Qed.

Lemma flat_document_leaves xmldoc :
  flat_document xmldoc = true →
  mjoin ((λ s, _all_xmlwords_in s None) <$> findall_s xmldoc)
  = mjoin (children <$> findall_s xmldoc).
Proof.
  intros H%flat_document_sentences. f_equal.
  apply list_fmap_ext. intros i s Hs.
  rewrite all_xmlwords_in_fresh. apply leaf_descendants_flat.
  rewrite Forall_forall in H. eapply H, list_elem_of_lookup_2, Hs.
Qed.

End lazy.

(** C1, as the code has it.  On a document whose sentence elements have
    only leaves as children, with no sentence element inside a leaf,
    the eager materializer and the fully pulled lazy view give the same
    result for every parameter combination but one: the same items in
    the same order, or the same exception.  For words without sentence
    bracketing the view yields one list of sub-words per leaf where the
    materializer has already spliced them, so the materializer's output
    is the view's output put through the flattening adapter. *)
Theorem eager_lazy_agree_on_flat_documents (xmldoc : elt) (unit : granularity)
    (bracket_sent pos_tag sem_tag strip_space : bool) :
  flat_document xmldoc = true →
  let eager := _words xmldoc unit bracket_sent pos_tag sem_tag strip_space in
  let lazy := view_items (SemcorWordView__init__ xmldoc unit bracket_sent
                            pos_tag sem_tag strip_space) in
  if bool_decide (unit = Word) && negb bracket_sent
  then eager = (r ← lazy; LazyConcatenation r)
  else eager = lazy.
Proof.
  intros Hflat eager lazy. subst eager lazy.
  destruct bracket_sent.
  - rewrite andb_false_r, words_bracketed, view_items_bracketed.
    apply mapM_py_ext. eapply Forall_impl; [apply flat_document_sentences, Hflat|].
    intros s Hs. symmetry. by apply handle_sent_flat.
  - rewrite andb_true_r, words_flat, view_items_unbracketed.
    rewrite stream_leaves, flat_document_leaves by done.
    generalize (mjoin (children <$> findall_s xmldoc)). intros leaves.
    destruct (decide (unit = Word)) as [->|Hne].
    + rewrite bool_decide_eq_true_2 by done.
      rewrite (mapM_Ret _ (λ x, VStr <$> Str.split "_" (surface x strip_space)))
        by (by apply Forall_forall).
      rewrite (mapM_Ret _ (λ x, VList (VStr <$> Str.split "_" (surface x strip_space))))
        by (by apply Forall_forall).
      simpl. unfold LazyConcatenation.
      rewrite mapM_py_fmap.
      by rewrite (mapM_Ret _ (λ x, VStr <$> Str.split "_" (surface x strip_space)))
        by (by apply Forall_forall).
    + rewrite bool_decide_eq_false_2 by done.
      rewrite <-(mapM_singletons (λ x, _word x unit pos_tag sem_tag strip_space)).
      f_equal. apply mapM_py_ext, Forall_forall. intros x _.
      unfold contribution. by destruct (decide (unit = Word)).
Qed.

Lemma eager_lazy_agree_on_flat_documents_witness :
  flat_document doc_semcor = true
  ∧ _words doc_semcor Chunk true true true true
    = view_items (SemcorWordView__init__ doc_semcor Chunk true true true true)
  ∧ _words doc_semcor Word false false false true
    = (r ← view_items (SemcorWordView__init__ doc_semcor Word false false false true);
       LazyConcatenation r).
Proof.
  split; [reflexivity|]. split.
  - exact (eager_lazy_agree_on_flat_documents doc_semcor Chunk true true true true
             eq_refl).
  - exact (eager_lazy_agree_on_flat_documents doc_semcor Word false false false true
             eq_refl).
Defined.

(** C1, as stated, fails on the code.  With a chunk nested inside a
    sentence the materializer descends into it while the view raises
    (bracketed) or passes over the nested leaf (unbracketed); for words
    without bracketing the materializer returns the words and the view
    one list of words per leaf; with a sentence inside a leaf the two
    give the leaves in different orders. *)
Lemma eager_lazy_differ :
  _words doc_nested Chunk true false false true
  ≠ view_items (SemcorWordView__init__ doc_nested Chunk true false false true)
  ∧ _words doc_nested Chunk false false false true
    ≠ view_items (SemcorWordView__init__ doc_nested Chunk false false false true)
  ∧ _words doc_new_york Word false false false true
    ≠ view_items (SemcorWordView__init__ doc_new_york Word false false false true)
  ∧ _words doc_sentence_in_leaf Token false false false true
    ≠ view_items (SemcorWordView__init__ doc_sentence_in_leaf Token false
                    false false true).
Proof. repeat split; vm_compute; discriminate. Qed.

(** C2, on the code.  Over a sentence whose only leaf is [New_York],
    [words()] gives [New], [York] when the reader is lazy; when it is
    eager the materializer has already spliced the words and the
    flattening adapter takes them apart into characters. *)
Theorem words_eager_flattens_twice :
  words {| _lazy := true; abspaths := [doc_new_york] |} true
  = Ret [VStr "New"; VStr "York"]
  ∧ words {| _lazy := false; abspaths := [doc_new_york] |} true
    = Ret [VStr "N"; VStr "e"; VStr "w"; VStr "Y"; VStr "o"; VStr "r"; VStr "k"]
  ∧ _words doc_new_york Word false false false true
    = Ret [VStr "New"; VStr "York"].
Proof. repeat split; vm_compute; reflexivity. Qed.

(** ** Structural errors in [handle_sent] *)

Section structural.
Context (self : SemcorWordView).

Local Abbreviation body :=
  (λ (sent : list pyval) (child : elt),
     if is_leaf child then
       itm ← handle_word self child;
       if decide (_unit self = Word) then extend sent itm
       else Ret (sent ++ [itm])
     else Raise (ValueError ("Unexpected element " +:+ tag child))).

Local Abbreviation builds :=
  (λ c : elt, sense_unbound c (_unit self) (_sem_tag self) = false).

Lemma body_leaf sent c :
  is_leaf c = true → builds c → ∃ sent', body sent c = Ret sent'.
Proof.
  intros Hleaf Hb. cbv beta. rewrite Hleaf. unfold handle_word.
  destruct (word_returns c (_unit self) (_pos_tag self) (_sem_tag self)
              (_strip_space self)) as [_ Hret].
  rewrite Hb in Hret.
  destruct (decide (_unit self = Word)) as [Hw|Hw].
  - rewrite Hw, word_Word. simpl. eauto.
  - destruct (_word _ _ _ _ _); [|done]. simpl. eauto.
Qed.

(** The loop stops at the first child that is not a leaf. *)
Lemma loop_unexpected sent pre c post :
  Forall (λ k, is_leaf k = true) pre → Forall builds pre →
  is_leaf c = false →
  for_each body sent (pre ++ c :: post)
  = Raise (ValueError ("Unexpected element " +:+ tag c)).
Proof.
  intros Hpre Hb Hc. revert sent.
  induction Hpre as [|k pre Hk _ IH]; intros sent; simpl.
  - by rewrite Hc.
  - apply Forall_cons in Hb as [Hbk Hb].
    destruct (body_leaf sent k Hk Hbk) as [sent' Hs].
    rewrite Hk in Hs. rewrite Hk, Hs. simpl. by apply IH.
Qed.

Lemma loop_leaves sent l :
  Forall (λ k, is_leaf k = true) l → Forall builds l →
  ∃ sent', for_each body sent l = Ret sent'.
Proof.
  intros Hl Hb. revert sent.
  induction Hl as [|k l Hk _ IH]; intros sent; simpl; [eauto|].
  apply Forall_cons in Hb as [Hbk Hb].
  destruct (body_leaf sent k Hk Hbk) as [sent' Hs].
  rewrite Hk in Hs. rewrite Hk, Hs. simpl. by apply IH.
Qed.

Lemma first_non_leaf (l : list elt) :
  Exists (λ k, is_leaf k = false) l →
  ∃ pre c post, l = pre ++ c :: post
    ∧ Forall (λ k, is_leaf k = true) pre ∧ is_leaf c = false.
Proof.
  induction l as [|k l IH]; intros H; [by apply Exists_nil in H|].
  destruct (is_leaf k) eqn:Hk.
  - apply Exists_cons in H as [H|H]; [congruence|].
    destruct (IH H) as (pre & c & post & -> & Hpre & Hc).
    exists (k :: pre), c, post. by repeat constructor.
  - exists [], k, l. by repeat constructor.
Qed.

(** When every leaf child can be built, [handle_sent] raises the
    structural error exactly when some child is not a leaf, and then
    returns no sentence container. *)
Lemma handle_sent_structural xmlsent :
  Forall builds (children xmlsent) →
  (∃ msg, handle_sent self xmlsent = Raise (ValueError msg))
  ↔ Exists (λ k, is_leaf k = false) (children xmlsent).
Proof.
  intros Hb. unfold handle_sent. split.
  - intros [msg Hmsg].
    destruct (decide (Exists (λ k, is_leaf k = false) (children xmlsent)))
      as [|Hno]; [done|].
    apply not_Exists_Forall in Hno; [|intros k; apply _].
    assert (Forall (λ k, is_leaf k = true) (children xmlsent)) as Hl.
    { eapply Forall_impl; [exact Hno|]. simpl. intros k Hk.
      by destruct (is_leaf k). }
    destruct (loop_leaves [] _ Hl Hb) as [sent' Hs].
    rewrite Hs in Hmsg. simpl in Hmsg.
    unfold getitem in Hmsg. by destruct (attrib xmlsent !! "snum").
  - intros (pre & c & post & Hcs & Hpre & Hc)%first_non_leaf.
    rewrite Hcs in Hb |- *. apply Forall_app in Hb as [Hb _].
    rewrite (loop_unexpected [] pre c post Hpre Hb Hc). eauto.
Qed.

End structural.

(** C8, on the code.  In the lazy bracketed mode a sentence with a child
    that is neither [wf] nor [punc] does not always end in the
    structural error: when an entity leaf without sense number comes
    first, at chunk granularity with semantic tags, building that leaf
    raises [UnboundLocalError] before the child is reached.  Without
    semantic tags the same sentence raises the structural error. *)
Theorem structural_error_preempted :
  Exists (λ k, is_leaf k = false) (children sent_entity_then_chunk)
  ∧ handle_sent (SemcorWordView__init__ doc_nested Chunk true true true true)
      sent_entity_then_chunk
    = Raise (UnboundLocalError "sense")
  ∧ handle_sent (SemcorWordView__init__ doc_nested Chunk true true false true)
      sent_entity_then_chunk
    = Raise (ValueError "Unexpected element chunk").
Proof.
  split; [|split].
  - apply Exists_cons_tl, Exists_cons_hd. reflexivity.
  - vm_compute. reflexivity.
  - vm_compute. reflexivity.
Qed.

(** C9, on the code.  A document whose sentence holds an entity leaf
    without sense number yields no item sequence at chunk granularity
    with semantic tags: the leaf yields no item, the materializer
    raises.  With part-of-speech tags only each of its three leaves
    yields one item. *)
Theorem entity_leaf_yields_no_item :
  _words doc_entity Chunk false false true true
  = Raise (UnboundLocalError "sense")
  ∧ _words doc_entity Chunk true true true true
    = Raise (UnboundLocalError "sense")
  ∧ _words doc_entity Chunk false true false true
    = Ret [VTree (VStr "DT") [VStr "The"];
           VTree (VStr "NNP") [VStr "New"; VStr "York"];
           VTree VNone [VStr "."]].
Proof. repeat split; vm_compute; reflexivity. Qed.

(** * Further properties of the reader *)

(** ** The item builder *)

Lemma word_raises xmlword unit pos_tag sem_tag strip_space e :
  _word xmlword unit pos_tag sem_tag strip_space = Raise e →
  e = UnboundLocalError "sense" ∧ sense_unbound xmlword unit sem_tag = true.
Proof.
  intros H.
  destruct (word_returns xmlword unit pos_tag sem_tag strip_space) as [Heq Hret].
  rewrite H in Hret. simpl in Hret.
  destruct (sense_unbound xmlword unit sem_tag); [|done].
  rewrite H in Heq. by injection Heq as ->.
Qed.

Lemma fringe_list (xs : list pyval) : fringe (VList xs) = mjoin (fringe <$> xs).
Proof.
  induction xs as [|x xs IH]; [done|].
  rewrite fmap_cons. change (fringe (VList (x :: xs)))
    with (fringe x ++ fringe (VList xs)). by rewrite IH.
Qed.

Lemma fringe_strings (ws : list string) : fringe (VList (VStr <$> ws)) = ws.
Proof.
  rewrite fringe_list. induction ws as [|w ws IH]; [done|].
  rewrite !fmap_cons. change (mjoin (?a :: ?l)) with (a ++ mjoin l).
  by rewrite IH.
Qed.

Lemma fringe_tree_strings node (ws : list string) :
  fringe (VTree node (VStr <$> ws)) = ws.
Proof. apply fringe_strings. Qed.

Lemma fringe_tree_single node v : fringe (VTree node [v]) = fringe v.
Proof. simpl. by rewrite app_nil_r. Qed.

Lemma fringe_tree_list node xs : fringe (VTree node xs) = fringe (VList xs).
Proof. reflexivity. Qed.

(** X1. The item builder fails in one situation only: at chunk
    granularity with semantic tags, on a leaf that has the entity
    attribute [rdf] and no sense number [wnsn]; the exception is then
    the unbound local [sense].  On every other leaf and parameter
    combination it returns an item, and that item is not [None]. *)
Theorem item_builder_failure (xmlword : elt) (unit : granularity)
    (pos_tag sem_tag strip_space : bool) :
  let unbound :=
    bool_decide (unit = Chunk) && sem_tag
    && bool_decide (is_Some (attrib xmlword !! "rdf"))
    && negb (bool_decide (is_Some (attrib xmlword !! "wnsn"))) in
  if unbound
  then _word xmlword unit pos_tag sem_tag strip_space
       = Raise (UnboundLocalError "sense")
  else ∃ itm, _word xmlword unit pos_tag sem_tag strip_space = Ret itm
              ∧ itm ≠ VNone.
Proof.
  intros unbound.
  destruct (word_returns xmlword unit pos_tag sem_tag strip_space) as [Heq Hret].
  change (sense_unbound xmlword unit sem_tag) with unbound in Heq, Hret.
  destruct unbound; [exact Heq|]. clear Heq.
  destruct (_word xmlword unit pos_tag sem_tag strip_space) as [itm|e] eqn:Hw;
    [|done].
  exists itm. split; [done|]. intros ->.
  by apply word_not_None in Hw.
Qed.

(** X2. At word and chunk granularity the tags never change the words:
    whatever the flags and the attributes of the leaf, the strings at
    the fringe of the item that is built are the sub-words of the
    surface text, in order. *)
Theorem built_item_keeps_words (xmlword : elt) (unit : granularity)
    (pos_tag sem_tag strip_space : bool) (itm : pyval) :
  unit ≠ Token →
  _word xmlword unit pos_tag sem_tag strip_space = Ret itm →
  fringe itm = Str.split "_" (surface xmlword strip_space)
  ∧ Str.join "_" (fringe itm) = surface xmlword strip_space.
Proof.
  intros Hunit Hw.
  assert (fringe itm = Str.split "_" (surface xmlword strip_space)) as Hf.
  { revert Hw. unfold _word. destruct unit; [done| |].
    - intros [= <-]. apply fringe_strings.
    - destruct pos_tag, sem_tag; simpl;
        destruct (attrib xmlword !! "rdf"), (attrib xmlword !! "wnsn");
        simpl; intros [= <-];
        rewrite ?fringe_tree_single, ?fringe_tree_list, ?fringe_tree_single;
        first [apply fringe_strings | apply fringe_tree_strings]. }
  split; [exact Hf|]. rewrite Hf. apply StrFacts.join_split.
Qed.

Lemma built_item_keeps_words_witness :
  fringe (VTree (VStr "location.01")
            [VTree (VStr "NE") [VTree (VStr "NNP") [VStr "New"; VStr "York"]]])
  = ["New"; "York"].
Proof.
  apply (built_item_keeps_words
           (leaf "wf" [("rdf", "location"); ("pos", "NNP");
                       ("lemma", "location"); ("wnsn", "1")] "New_York")
           Chunk true true true); [discriminate|reflexivity].
Defined.

(** X3. At chunk granularity, asking for semantic tags changes nothing
    for a leaf that has neither a sense number nor the entity
    attribute: it is built as without semantic tags, into the
    part-of-speech tree or the bare list of sub-words. *)
Theorem semantic_tags_leave_plain_leaves (xmlword : elt)
    (pos_tag strip_space : bool) :
  attrib xmlword !! "wnsn" = None →
  attrib xmlword !! "rdf" = None →
  _word xmlword Chunk pos_tag true strip_space
  = _word xmlword Chunk pos_tag false strip_space.
Proof.
  intros Hsn Hrdf. unfold _word. rewrite Hsn, Hrdf. by destruct pos_tag.
Qed.

Lemma semantic_tags_leave_plain_leaves_witness :
  _word (leaf "punc" [] ".") Chunk true true true
  = _word (leaf "punc" [] ".") Chunk true false true.
Proof.
  apply (semantic_tags_leave_plain_leaves (leaf "punc" [] ".") true true);
    reflexivity.
Defined.

(** X4. At word granularity the builder looks at the text only: the
    tag flags and the attributes of the leaf have no effect, the result
    is a list of strings that is never empty, and joining it with the
    marker [_] gives the surface text back. *)
Theorem word_granularity_splits_text (xmlword : elt)
    (pos_tag sem_tag strip_space : bool) :
  ∃ ws, _word xmlword Word pos_tag sem_tag strip_space = Ret (VList (VStr <$> ws))
        ∧ ws ≠ []
        ∧ Str.join "_" ws = surface xmlword strip_space
        ∧ _word (Element (tag xmlword) ∅ (text xmlword) (children xmlword))
                Word false false strip_space
          = Ret (VList (VStr <$> ws)).
Proof.
  exists (Str.split "_" (surface xmlword strip_space)).
  split; [done|]. split; [apply StrFacts.split_nonempty|].
  split; [apply StrFacts.join_split|]. done.
Qed.

(** ** The leaf collector *)

(** X5. Called with a list already started, the collector keeps what
    the list holds and appends, after it, exactly what it collects
    from the element when called on its own. *)
Theorem collector_appends_to_result (e : elt) (result : list elt) :
  _all_xmlwords_in e (Some result) = result ++ _all_xmlwords_in e None.
Proof. by rewrite all_xmlwords_in_acc, all_xmlwords_in_fresh. Qed.

(** X6. A leaf is collected from an element exactly when it is reached
    from the element by going down through children that are not
    leaves: leaves below another leaf are never collected, leaves
    below chunks always are. *)
Theorem collector_membership (e x : elt) :
  x ∈ _all_xmlwords_in e None ↔ leaf_under e x.
Proof.
  rewrite all_xmlwords_in_fresh. split.
  - revert x. induction e as [t a y cs IH] using elt_nested_ind. intros x.
    rewrite leaf_descendants_spec_unfold. simpl.
    intros (l & Hx & (c & -> & Hc)%list_elem_of_fmap)%list_elem_of_join.
    destruct (is_leaf c) eqn:Hleaf.
    + apply list_elem_of_singleton in Hx as ->. by apply leaf_under_child.
    + apply leaf_under_nested with c; [done..|].
      rewrite Forall_forall in IH. by apply IH.
  - induction 1 as [e c Hc Hleaf|e c x Hc Hleaf _ IH];
      rewrite leaf_descendants_spec_unfold; apply list_elem_of_join.
    + exists [c]. split; [by apply list_elem_of_singleton|].
      apply list_elem_of_fmap. exists c. by rewrite Hleaf.
    + exists (leaf_descendants_spec c). split; [done|].
      apply list_elem_of_fmap. exists c. by rewrite Hleaf.
Qed.

(** X7. Collecting is idempotent: the leaves collected from an element,
    put as they are under any element, are collected again unchanged. *)
Theorem collector_idempotent (e : elt) (t : string) (a : gmap string string)
    (x : option string) :
  _all_xmlwords_in (Element t a x (_all_xmlwords_in e None)) None
  = _all_xmlwords_in e None.
Proof.
  rewrite (all_xmlwords_in_fresh (Element _ _ _ _)).
  rewrite leaf_descendants_flat; [done|]. simpl.
  rewrite all_xmlwords_in_fresh. apply leaf_descendants_are_leaves.
Qed.

(** ** The eager materializer *)

Section exceptions.
Context {A B : Type}.

Lemma mapM_Raise_inv (f : A → py B) l e :
  mapM f l = Raise e → ∃ x, x ∈ l ∧ f x = Raise e.
Proof.
  induction l as [|x l IH]; [done|]. rewrite mapM_cons.
  destruct (f x) as [y|e'] eqn:Hx; simpl.
  - destruct (mapM f l) as [k|e'']; simpl; [done|]. intros [= ->].
    destruct IH as (x' & Hin & Hx'); [done|].
    exists x'. split; [|done]. apply elem_of_cons. by right.
  - intros [= ->]. exists x. split; [|done]. apply elem_of_cons. by left.
Qed.

Lemma mapM_returns (f : A → py B) l :
  returns (mapM f l) = forallb (λ x, returns (f x)) l.
Proof.
  induction l as [|x l IH]; [done|]. rewrite mapM_cons. simpl.
  destruct (f x) as [y|e]; simpl; [|done].
  rewrite <-IH. by destruct (mapM f l).
Qed.

Lemma mapM_Ret_fmap {C} (f : A → py B) (g : C → B) l k :
  Forall2 (λ x y, f x = Ret (g y)) l k → mapM f l = Ret (g <$> k).
Proof.
  induction 1 as [|x y l k Hx _ IH]; [done|].
  by rewrite mapM_cons, Hx, IH.
Qed.

Lemma forallb_ext (f g : A → bool) l :
  (∀ x, f x = g x) → forallb f l = forallb g l.
Proof. intros H. induction l as [|x l IH]; [done|]. simpl. by rewrite H, IH. Qed.

Lemma for_each_Raise_inv (body : B → A → py B) acc l e :
  for_each body acc l = Raise e → ∃ x acc', x ∈ l ∧ body acc' x = Raise e.
Proof.
  revert acc. induction l as [|x l IH]; intros acc; [done|]. simpl.
  destruct (body acc x) as [acc'|e'] eqn:Hx; simpl.
  - intros (x' & a & Hin & Hx')%IH. exists x', a. split; [|done].
    apply elem_of_cons. by right.
  - intros [= ->]. exists x, acc. split; [|done]. apply elem_of_cons. by left.
Qed.

Lemma for_each_Ret_inv (body : B → A → py B) acc l r :
  for_each body acc l = Ret r →
  Forall (λ x, ∃ acc' acc'', body acc' x = Ret acc'') l.
Proof.
  revert acc. induction l as [|x l IH]; intros acc; [constructor|]. simpl.
  destruct (body acc x) as [acc'|e'] eqn:Hx; simpl; [|done].
  intros H%IH. constructor; eauto.
Qed.

End exceptions.

Section materializer.
Context (unit : granularity) (pos_tag sem_tag strip_space : bool).

Local Abbreviation contrib := (contribution unit pos_tag sem_tag strip_space).
Local Abbreviation build := (λ x, _word x unit pos_tag sem_tag strip_space).
Local Abbreviation container :=
  (sentence_container unit pos_tag sem_tag strip_space).
Local Abbreviation items := (sentence_items unit pos_tag sem_tag strip_space).

Lemma sense_unbound_chunk x :
  sense_unbound x unit sem_tag = true → unit = Chunk ∧ sem_tag = true.
Proof.
  unfold sense_unbound.
  intros [[[Hu%bool_decide_eq_true_1 Hs]%andb_prop _]%andb_prop _]%andb_prop.
  done.
Qed.

Lemma contribution_raises x e :
  contrib x = Raise e →
  e = UnboundLocalError "sense" ∧ sense_unbound x unit sem_tag = true.
Proof.
  unfold contribution. destruct (build x) as [itm|e'] eqn:Hb; simpl.
  - destruct (decide (unit = Word)) as [Hw|_]; [|done].
    rewrite Hw, word_Word in Hb. by injection Hb as <-.
  - intros [= <-]. by apply word_raises in Hb.
Qed.

Lemma contribution_returns x :
  returns (contrib x) = negb (sense_unbound x unit sem_tag).
Proof.
  destruct (word_returns x unit pos_tag sem_tag strip_space) as [_ <-].
  unfold contribution. destruct (build x) as [itm|e'] eqn:Hb; simpl; [|done].
  destruct (decide (unit = Word)) as [Hw|_]; [|done].
  rewrite Hw, word_Word in Hb. by injection Hb as <-.
Qed.

Lemma words_flat_sentences xmldoc :
  _words xmldoc unit false pos_tag sem_tag strip_space
  = (yss ← mapM items (findall_s xmldoc); Ret (mjoin yss)).
Proof.
  rewrite words_flat.
  pose proof (mapM_join_join contrib
                ((λ s, _all_xmlwords_in s None) <$> findall_s xmldoc)) as Hj.
  rewrite mapM_py_fmap in Hj. symmetry. exact Hj.
Qed.

End materializer.

(** X8. The materializer raises two exceptions only: the unbound local
    [sense], at chunk granularity with semantic tags when one of the
    leaves it visits is an entity without sense number, and
    [KeyError] for [snum], with sentence bracketing when a sentence
    element has no [snum] attribute.  Its final assertion never
    fails. *)
Theorem materializer_exceptions (xmldoc : elt) (unit : granularity)
    (bracket_sent pos_tag sem_tag strip_space : bool) (e : pyerr) :
  _words xmldoc unit bracket_sent pos_tag sem_tag strip_space = Raise e →
  (e = UnboundLocalError "sense" ∧ unit = Chunk ∧ sem_tag = true
   ∧ ∃ x, x ∈ collected_leaves xmldoc ∧ sense_unbound x unit sem_tag = true)
  ∨ (e = KeyError "snum" ∧ bracket_sent = true
     ∧ ∃ s, s ∈ findall_s xmldoc ∧ attrib s !! "snum" = None).
Proof.
  destruct bracket_sent.
  - rewrite words_bracketed. intros (s & Hs & Hc)%mapM_Raise_inv.
    unfold sentence_container, sentence_items in Hc.
    destruct (mapM _ (_all_xmlwords_in s None)) as [yss|e'] eqn:Hm; simpl in Hc.
    + right. unfold getitem in Hc.
      destruct (attrib s !! "snum") eqn:Hsn; [done|].
      injection Hc as <-. eauto.
    + injection Hc as ->. left.
      apply mapM_Raise_inv in Hm as (x & Hx & [-> Hu]%contribution_raises).
      destruct (sense_unbound_chunk _ _ _ Hu) as [-> ->].
      repeat split. exists x. split; [|done].
      apply list_elem_of_join. exists (_all_xmlwords_in s None).
      split; [done|]. apply list_elem_of_fmap. by exists s.
  - rewrite words_flat. fold (collected_leaves xmldoc).
    destruct (mapM _ (collected_leaves xmldoc)) as [yss|e'] eqn:Hm; [done|].
    simpl. intros [= <-]. left.
    apply mapM_Raise_inv in Hm as (x & Hx & [-> Hu]%contribution_raises).
    destruct (sense_unbound_chunk _ _ _ Hu) as [-> ->]. eauto 6.
Qed.

Lemma materializer_exceptions_witness :
  ∃ x, x ∈ collected_leaves doc_entity ∧ sense_unbound x Chunk true = true.
Proof.
  destruct (materializer_exceptions doc_entity Chunk false true true true
              (UnboundLocalError "sense") eq_refl)
    as [(_ & _ & _ & H)|(H & _)]; [exact H|discriminate H].
Defined.

(** X9. The materializer returns exactly when every leaf it visits can
    be built and, with sentence bracketing, every sentence element has
    a [snum] attribute. *)
Theorem materializer_returns (xmldoc : elt) (unit : granularity)
    (bracket_sent pos_tag sem_tag strip_space : bool) :
  returns (_words xmldoc unit bracket_sent pos_tag sem_tag strip_space)
  = forallb (λ x, negb (sense_unbound x unit sem_tag)) (collected_leaves xmldoc)
    && (negb bracket_sent
        || forallb (λ s, bool_decide (is_Some (attrib s !! "snum")))
                   (findall_s xmldoc)).
Proof.
  destruct bracket_sent; simpl.
  - rewrite words_bracketed, mapM_returns. unfold collected_leaves.
    induction (findall_s xmldoc) as [|s l IH]; [done|].
    rewrite fmap_cons, join_cons, forallb_app. simpl. rewrite IH. clear IH.
    unfold sentence_container, sentence_items.
    pose proof (mapM_returns (contribution unit pos_tag sem_tag strip_space)
                  (_all_xmlwords_in s None)) as Hr.
    rewrite (forallb_ext _ (λ x, negb (sense_unbound x unit sem_tag))) in Hr
      by (intros x; apply contribution_returns).
    rewrite <-Hr. clear Hr.
    destruct (mapM _ (_all_xmlwords_in s None)); simpl; [|done].
    unfold getitem. destruct (attrib s !! "snum") eqn:Hsn; simpl.
    + done.
    + by rewrite andb_false_r.
  - rewrite andb_true_r, words_flat. fold (collected_leaves xmldoc).
    rewrite <-(forallb_ext (λ x, returns (contribution unit pos_tag sem_tag
                                             strip_space x)))
      by (intros x; apply contribution_returns).
    rewrite <-mapM_returns. by destruct (mapM _ _).
Qed.

(** X10. With sentence bracketing the materializer returns one
    container per sentence element, in document order, each carrying
    the [snum] attribute of its sentence unchanged. *)
Theorem bracketed_containers_keep_snum (xmldoc : elt) (unit : granularity)
    (pos_tag sem_tag strip_space : bool) (result : list pyval) :
  _words xmldoc unit true pos_tag sem_tag strip_space = Ret result →
  Forall2 (λ xmlsent v, ∃ snum, attrib xmlsent !! "snum" = Some snum
                                ∧ v = VSentence snum (container_items v))
          (findall_s xmldoc) result
  ∧ length result = length (findall_s xmldoc).
Proof.
  rewrite words_bracketed. intros H%mapM_Ret_Forall2.
  split; [|symmetry; by eapply Forall2_length].
  eapply Forall2_impl; [exact H|]. simpl. intros s v Hv.
  unfold sentence_container in Hv.
  destruct (sentence_items _ _ _ _ s) as [its|]; simpl in Hv; [|done].
  unfold getitem in Hv. destruct (attrib s !! "snum") as [snum|]; [|done].
  injection Hv as <-. eauto.
Qed.

Lemma bracketed_containers_keep_snum_witness :
  length [VSentence "1" [VStr "The"; VStr "New"; VStr "York"; VStr "dogs"; VStr "."];
          VSentence "2" [VStr "ran"]]
  = length (findall_s doc_semcor).
Proof.
  apply (bracketed_containers_keep_snum doc_semcor Word false false true).
  reflexivity.
Defined.

(** X11. Sentence bracketing only groups: whenever the materializer
    returns with bracketing, it returns without bracketing too, and
    what it returns is the items of the containers, one container
    after the other. *)
Theorem unbracketed_is_flattened_bracketed (xmldoc : elt) (unit : granularity)
    (pos_tag sem_tag strip_space : bool) (result : list pyval) :
  _words xmldoc unit true pos_tag sem_tag strip_space = Ret result →
  _words xmldoc unit false pos_tag sem_tag strip_space
  = Ret (mjoin (container_items <$> result)).
Proof.
  rewrite words_bracketed, words_flat_sentences. intros H%mapM_Ret_Forall2.
  rewrite (mapM_Ret_fmap _ container_items _ result); [done|].
  eapply Forall2_impl; [exact H|]. simpl. intros s v Hv.
  unfold sentence_container in Hv.
  destruct (sentence_items _ _ _ _ s) as [its|]; simpl in Hv; [|done].
  destruct (getitem _ _); simpl in Hv; [|done]. by injection Hv as <-.
Qed.

Lemma unbracketed_is_flattened_bracketed_witness :
  _words doc_semcor Word false false false true
  = Ret [VStr "The"; VStr "New"; VStr "York"; VStr "dogs"; VStr "."; VStr "ran"].
Proof.
  apply (unbracketed_is_flattened_bracketed doc_semcor Word false false true
           [VSentence "1" [VStr "The"; VStr "New"; VStr "York"; VStr "dogs"; VStr "."];
            VSentence "2" [VStr "ran"]]).
  reflexivity.
Defined.

(** X12. At token and chunk granularity without bracketing, whenever
    the materializer returns, its output lines up with the leaves it
    visited: the item at each position is the one built from the leaf
    at that position, so there are as many items as leaves. *)
Theorem unbracketed_items_line_up (xmldoc : elt) (unit : granularity)
    (pos_tag sem_tag strip_space : bool) (result : list pyval) :
  unit ≠ Word →
  _words xmldoc unit false pos_tag sem_tag strip_space = Ret result →
  Forall2 (λ x itm, _word x unit pos_tag sem_tag strip_space = Ret itm)
          (collected_leaves xmldoc) result
  ∧ length result = length (collected_leaves xmldoc).
Proof.
  intros Hunit. rewrite words_one_item_per_leaf by done.
  fold (collected_leaves xmldoc). intros H%mapM_Ret_Forall2.
  split; [exact H|]. symmetry. by eapply Forall2_length.
Qed.

Lemma unbracketed_items_line_up_witness :
  length [VTree (VStr "DT") [VStr "The"];
          VTree (VStr "NNP") [VStr "New"; VStr "York"];
          VTree VNone [VStr "."]]
  = length (collected_leaves doc_entity).
Proof.
  apply (unbracketed_items_line_up doc_entity Chunk true false true);
    [discriminate|reflexivity].
Defined.

Lemma words_at_word_granularity xmldoc pos_tag sem_tag strip_space :
  _words xmldoc Word false pos_tag sem_tag strip_space
  = Ret (VStr <$> mjoin ((λ x, Str.split "_" (surface x strip_space))
                         <$> collected_leaves xmldoc)).
Proof.
  rewrite words_flat. fold (collected_leaves xmldoc).
  rewrite (mapM_Ret _ (λ x, VStr <$> Str.split "_" (surface x strip_space)))
    by (by apply Forall_forall).
  simpl. f_equal.
  induction (collected_leaves xmldoc) as [|x l IH]; [done|].
  by rewrite !fmap_cons, !join_cons, fmap_app, IH.
Qed.

(** X13. At word granularity without bracketing the materializer always
    returns, whatever the tag flags, and what it returns is the flat
    list of the sub-words of the leaves it visits, every item a
    string. *)
Theorem word_granularity_output (xmldoc : elt)
    (pos_tag sem_tag strip_space : bool) :
  _words xmldoc Word false pos_tag sem_tag strip_space
  = Ret (VStr <$> mjoin ((λ x, Str.split "_" (surface x strip_space))
                         <$> collected_leaves xmldoc)).
Proof. apply words_at_word_granularity. Qed.

(** ** The lazy view and the view selector *)

(** X14. [handle_sent] raises three exceptions only: the unbound local
    [sense] from a leaf child that cannot be built, [ValueError]
    naming the tag of a child that is not a leaf, and [KeyError] for
    [snum] when all children are leaves, all were built, and the
    sentence element has no [snum] attribute. *)
Theorem handle_sent_exceptions (self : SemcorWordView) (e : elt) (err : pyerr) :
  handle_sent self e = Raise err →
  (err = UnboundLocalError "sense"
   ∧ ∃ c, c ∈ children e ∧ is_leaf c = true
          ∧ sense_unbound c (_unit self) (_sem_tag self) = true)
  ∨ (∃ c, c ∈ children e ∧ is_leaf c = false
          ∧ err = ValueError ("Unexpected element " +:+ tag c))
  ∨ (err = KeyError "snum" ∧ attrib e !! "snum" = None
     ∧ Forall (λ c, is_leaf c = true) (children e)).
Proof.
  unfold handle_sent. destruct (for_each _ _ _) as [sent|e'] eqn:Hloop; simpl.
  - unfold getitem. destruct (attrib e !! "snum") eqn:Hsn; [done|].
    intros [= <-]. right. right. repeat split.
    apply for_each_Ret_inv in Hloop.
    eapply Forall_impl; [exact Hloop|]. simpl.
    intros c (acc & acc' & Hc). by destruct (is_leaf c).
  - intros [= <-].
    apply for_each_Raise_inv in Hloop as (c & acc & Hin & Hc).
    destruct (is_leaf c) eqn:Hleaf.
    + left. unfold handle_word in Hc.
      destruct (_word c _ _ _ _) as [itm|e''] eqn:Hw; simpl in Hc.
      * destruct (decide (_unit self = Word)) as [Hu|_]; [|done].
        rewrite Hu, word_Word in Hw. by injection Hw as <-.
      * injection Hc as <-. apply word_raises in Hw as [-> Hu]. eauto.
    + right. left. injection Hc as <-. eauto.
Qed.

Lemma handle_sent_exceptions_witness :
  ∃ c, c ∈ children sent_entity_then_chunk ∧ is_leaf c = true
       ∧ sense_unbound c Chunk true = true.
Proof.
  destruct (handle_sent_exceptions
              (SemcorWordView__init__ doc_nested Chunk true true true true)
              sent_entity_then_chunk (UnboundLocalError "sense") eq_refl)
    as [[_ H]|[(c & _ & _ & H)|(H & _)]];
    [exact H|discriminate H|discriminate H].
Defined.

(** On a flat document the materializer gives what the view gives; for
    words without bracketing, what the view gives once flattened. *)
Lemma materializer_vs_view xmldoc unit bracket_sent pos_tag sem_tag strip_space :
  flat_document xmldoc = true →
  _words xmldoc unit bracket_sent pos_tag sem_tag strip_space
  = (let lazy := view_items (SemcorWordView__init__ xmldoc unit bracket_sent
                               pos_tag sem_tag strip_space) in
     if bool_decide (unit = Word) && negb bracket_sent
     then r ← lazy; LazyConcatenation r
     else lazy).
Proof.
  intros Hflat. cbv zeta. destruct bracket_sent.
  - rewrite andb_false_r, words_bracketed, view_items_bracketed.
    apply mapM_py_ext. eapply Forall_impl; [apply flat_document_sentences, Hflat|].
    intros s Hs. symmetry. by apply handle_sent_flat.
  - rewrite andb_true_r, words_flat, view_items_unbracketed.
    rewrite stream_leaves, flat_document_leaves by done.
    generalize (mjoin (children <$> findall_s xmldoc)). intros leaves.
    destruct (decide (unit = Word)) as [->|Hne].
    + rewrite bool_decide_eq_true_2 by done.
      rewrite (mapM_Ret _ (λ x, VStr <$> Str.split "_" (surface x strip_space)))
        by (by apply Forall_forall).
      rewrite (mapM_Ret _ (λ x, VList (VStr <$> Str.split "_" (surface x strip_space))))
        by (by apply Forall_forall).
      simpl. unfold LazyConcatenation. rewrite mapM_py_fmap.
      by rewrite (mapM_Ret _ (λ x, VStr <$> Str.split "_" (surface x strip_space)))
        by (by apply Forall_forall).
    + rewrite bool_decide_eq_false_2 by done.
      rewrite <-(mapM_singletons (λ x, _word x unit pos_tag sem_tag strip_space)).
      f_equal. apply mapM_py_ext, Forall_forall. intros x _.
      unfold contribution. by destruct (decide (unit = Word)).
Qed.

(** X15. Over flat documents the reader's mode does not show in
    [chunks], [sents], [chunk_sents], [tagged_chunks] and
    [tagged_sents], nor in any other call of [_items] but words
    without bracketing: lazy and eager give the same items in the same
    order, or the same exception. *)
Theorem reader_mode_irrelevant (docs : list elt) (unit : granularity)
    (bracket_sent pos_tag sem_tag strip_space : bool) :
  Forall (λ d, flat_document d = true) docs →
  bool_decide (unit = Word) && negb bracket_sent = false →
  _items {| _lazy := true; abspaths := docs |} unit bracket_sent pos_tag
         sem_tag strip_space
  = _items {| _lazy := false; abspaths := docs |} unit bracket_sent pos_tag
           sem_tag strip_space.
Proof.
  intros Hflat Hsel. unfold _items. simpl. rewrite Hsel. f_equal.
  apply mapM_py_ext. eapply Forall_impl; [exact Hflat|]. simpl.
  intros d Hd. rewrite (materializer_vs_view d) by done. cbv zeta.
  by rewrite Hsel.
Qed.

Lemma reader_mode_irrelevant_witness :
  tagged_sents {| _lazy := true; abspaths := [doc_semcor; doc_new_york] |}
               "both" true
  = tagged_sents {| _lazy := false; abspaths := [doc_semcor; doc_new_york] |}
                 "both" true.
Proof.
  apply (reader_mode_irrelevant [doc_semcor; doc_new_york] Chunk true true true true);
    [by repeat constructor|reflexivity].
Defined.

(** X16. Over flat documents the lazy reader's [words] is the
    concatenation, document after document, of what the materializer
    returns at word granularity: the flat list of the sub-words of all
    leaves, and it never raises. *)
Theorem lazy_words_are_flat (docs : list elt) (strip_space : bool) :
  Forall (λ d, flat_document d = true) docs →
  words {| _lazy := true; abspaths := docs |} strip_space
  = Ret (VStr <$> mjoin ((λ d, mjoin ((λ x, Str.split "_" (surface x strip_space))
                                       <$> collected_leaves d)) <$> docs))
  ∧ words {| _lazy := true; abspaths := docs |} strip_space
    = (rs ← mapM (λ d, _words d Word false false false strip_space) docs;
       Ret (mjoin rs)).
Proof.
  intros Hflat.
  assert (words {| _lazy := true; abspaths := docs |} strip_space
          = (rs ← mapM (λ d, _words d Word false false false strip_space) docs;
             Ret (mjoin rs))) as Heq.
  { unfold words, _items, concat. simpl. f_equal.
    apply mapM_py_ext. eapply Forall_impl; [exact Hflat|]. simpl.
    intros d Hd. by rewrite (materializer_vs_view d Word false) by done. }
  split; [|exact Heq]. rewrite Heq.
  rewrite (mapM_Ret _ (λ d, VStr <$> mjoin ((λ x, Str.split "_" (surface x strip_space))
                                            <$> collected_leaves d))).
  2:{ apply Forall_forall. intros d _. apply words_at_word_granularity. }
  simpl. f_equal. clear. induction docs as [|d docs IH]; [done|].
  by rewrite !fmap_cons, !join_cons, fmap_app, IH.
Qed.

Lemma lazy_words_are_flat_witness :
  words {| _lazy := true; abspaths := [doc_semcor; doc_new_york] |} true
  = Ret (VStr <$> ["The"; "New"; "York"; "dogs"; "."; "ran"; "New"; "York"]).
Proof.
  apply (lazy_words_are_flat [doc_semcor; doc_new_york] true).
  by repeat constructor.
Defined.

(** X17. [handle_sent] reports the first child that is not a leaf: when
    the children before it are leaves that can be built, the call
    raises [ValueError] naming its tag, whatever comes after it. *)
Theorem first_unexpected_child_reported (self : SemcorWordView) (e : elt)
    (pre post : list elt) (c : elt) :
  children e = pre ++ c :: post →
  Forall (λ k, is_leaf k = true
               ∧ sense_unbound k (_unit self) (_sem_tag self) = false) pre →
  is_leaf c = false →
  handle_sent self e = Raise (ValueError ("Unexpected element " +:+ tag c)).
Proof.
  intros Hcs Hpre Hc. unfold handle_sent. rewrite Hcs.
  rewrite (loop_unexpected self [] pre c post); [done| | |done].
  - eapply Forall_impl; [exact Hpre|]. by intros k [? _].
  - eapply Forall_impl; [exact Hpre|]. by intros k [_ ?].
Qed.

Lemma first_unexpected_child_reported_witness :
  handle_sent (SemcorWordView__init__ doc_nested Chunk true true true true)
              sent_nested
  = Raise (ValueError "Unexpected element chunk").
Proof.
  apply (first_unexpected_child_reported
           (SemcorWordView__init__ doc_nested Chunk true true true true)
           sent_nested [leaf "wf" [] "The"] [leaf "punc" [] "."]
           (node "chunk" [] [node "chunk" [] [leaf "wf" [] "New_York"];
                             leaf "wf" [] "Times"])).
  - reflexivity.
  - by repeat constructor.
  - reflexivity.
Defined.
